(** * The localStorage relational store (db.js)

    A shallow embedding of the [DB] module: four tables kept in the browser's
    localStorage as JSON arrays, auto-increment identifiers, foreign-key
    validation on write and referential guards on delete. *)

From Stdlib Require Import ZArith QArith List Bool Lia.
From Stdlib Require PrimFloat FloatOps SpecFloat Uint63.
From stdpp Require Import base option list strings gmap.

Local Open Scope string_scope.
Local Open Scope Z_scope.

(** ** JavaScript values

    The values that travel through the store are the primitive ones.  A
    finite number is represented by the rational it denotes; [NaN] and the
    two infinities are kept apart because JSON cannot carry them.  The two
    zeros are not distinguished: [===], truthiness and JSON agree on them.

    [undefined] is not a constructor: a property whose value is [undefined]
    and a property that is not there read the same everywhere in db.js, so
    both are the [None] of a [field]. *)

Inductive number :=
  | Fin (q : Q)
  | NaN
  | Infinity (negative : bool).

Inductive value :=
  | VNull
  | VBool (b : bool)
  | VNum (n : number)
  | VStr (s : string).

Definition field : Type := option value.

(** An input object, as handed to [create] and [update]. *)
Abbreviation object := (gmap string value).

Definition null : field := Some VNull.
Definition str (s : string) : field := Some (VStr s).
Definition num (z : Z) : field := Some (VNum (Fin (inject_Z z))).

(** [Boolean(v)] *)
Definition truthy (v : value) : bool :=
  match v with
  | VNull => false
  | VBool b => b
  | VNum (Fin q) => negb (Qeq_bool q 0)
  | VNum NaN => false
  | VNum (Infinity _) => true
  | VStr s => negb (String.eqb s "")
  end.

(** [a || b] *)
Definition or_else (a b : field) : field :=
  match a with
  | Some v => if truthy v then a else b
  | None => b
  end.

(** [a !== undefined ? a : b] *)
Definition if_defined (a b : field) : field :=
  match a with
  | Some v => Some v
  | None => b
  end.

(** [a === b] *)
Definition number_eq (a b : number) : bool :=
  match a, b with
  | Fin p, Fin q => Qeq_bool p q
  | Infinity s, Infinity t => Bool.eqb s t
  | _, _ => false
  end.

Definition strict_eq (a b : field) : bool :=
  match a, b with
  | None, None => true
  | Some VNull, Some VNull => true
  | Some (VBool x), Some (VBool y) => Bool.eqb x y
  | Some (VNum x), Some (VNum y) => number_eq x y
  | Some (VStr x), Some (VStr y) => String.eqb x y
  | _, _ => false
  end.

(** What [JSON.parse (JSON.stringify o)] leaves of a property of [o]: an
    undefined property is dropped, a number that is not finite comes back as
    [null]. *)
Definition json_value (v : value) : value :=
  match v with
  | VNum NaN => VNull
  | VNum (Infinity _) => VNull
  | _ => v
  end.

Definition json (a : field) : field := json_value <$> a.

(** ** Records

    A record is the object literal that [create] builds, with its fixed set
    of properties.  The identifier is only ever written by [create], from
    [getNextId], and copied by [update]; it is an integer, and is kept as
    one.  [getNextId] adds one in the integers, where the code adds one in
    doubles: the two agree on identifiers below 2^53 and differ from there
    on (in doubles 2^53 + 1 is 2^53 again).  What is proved of
    the identifier of a new record is therefore stated for the states that
    the interface reaches from an empty or a seeded store, in which the
    identifiers count the records created.  Every other property holds
    whatever value the caller supplied. *)

Module CellModel.
Record t := Build {
  id : Z;
  manufacturer : field;
  model : field;
  chemistry : field;
  nominalVoltage : field;
  nominalCapacityMah : field
}.
Definition stringify_parse (r : t) : t :=
  {| id := id r;
     manufacturer := json (manufacturer r);
     model := json (model r);
     chemistry := json (chemistry r);
     nominalVoltage := json (nominalVoltage r);
     nominalCapacityMah := json (nominalCapacityMah r) |}.
End CellModel.

Module BatteryPack.
Record t := Build {
  id : Z;
  name : field;
  totalCapacityKwh : field;
  seriesCount : field;
  parallelCount : field;
  cellCount : field;
  cellModelId : field
}.
Definition stringify_parse (r : t) : t :=
  {| id := id r;
     name := json (name r);
     totalCapacityKwh := json (totalCapacityKwh r);
     seriesCount := json (seriesCount r);
     parallelCount := json (parallelCount r);
     cellCount := json (cellCount r);
     cellModelId := json (cellModelId r) |}.
End BatteryPack.

Module Car.
Record t := Build {
  id : Z;
  brand : field;
  model : field;
  trim : field;
  yearStart : field;
  yearEnd : field
}.
Definition stringify_parse (r : t) : t :=
  {| id := id r;
     brand := json (brand r);
     model := json (model r);
     trim := json (trim r);
     yearStart := json (yearStart r);
     yearEnd := json (yearEnd r) |}.
End Car.

Module CarBatteryPack.
Record t := Build {
  id : Z;
  carId : field;
  batteryPackId : field
}.
Definition stringify_parse (r : t) : t :=
  {| id := id r;
     carId := json (carId r);
     batteryPackId := json (batteryPackId r) |}.
End CarBatteryPack.

(** ** Tables and localStorage

    The keys of [TABLES]; [cellModels_] is [TABLES.cellModels], and so on. *)

Inductive TABLES := cellModels_ | batteryPacks_ | cars_ | carBatteryPacks_.

Definition row (tbl : TABLES) : Type :=
  match tbl with
  | cellModels_ => CellModel.t
  | batteryPacks_ => BatteryPack.t
  | cars_ => Car.t
  | carBatteryPacks_ => CarBatteryPack.t
  end.

Definition row_id {tbl : TABLES} : row tbl → Z :=
  match tbl with
  | cellModels_ => CellModel.id
  | batteryPacks_ => BatteryPack.id
  | cars_ => Car.id
  | carBatteryPacks_ => CarBatteryPack.id
  end.

Definition stringify_parse {tbl : TABLES} : row tbl → row tbl :=
  match tbl with
  | cellModels_ => CellModel.stringify_parse
  | batteryPacks_ => BatteryPack.stringify_parse
  | cars_ => Car.stringify_parse
  | carBatteryPacks_ => CarBatteryPack.stringify_parse
  end.

(** One entry per table; [None] is a key that is not in localStorage.  An
    entry holds what [JSON.parse] gives back for it. *)
Record localStorage := LocalStorage {
  cellModelsItem : option (list CellModel.t);
  batteryPacksItem : option (list BatteryPack.t);
  carsItem : option (list Car.t);
  carBatteryPacksItem : option (list CarBatteryPack.t)
}.

Definition emptyStorage : localStorage := LocalStorage None None None None.

Definition lookupItem (tbl : TABLES) (ls : localStorage) : option (list (row tbl)) :=
  match tbl with
  | cellModels_ => cellModelsItem ls
  | batteryPacks_ => batteryPacksItem ls
  | cars_ => carsItem ls
  | carBatteryPacks_ => carBatteryPacksItem ls
  end.

Definition storeItem (tbl : TABLES) : option (list (row tbl)) → localStorage → localStorage :=
  match tbl with
  | cellModels_ => λ v ls,
      LocalStorage v (batteryPacksItem ls) (carsItem ls) (carBatteryPacksItem ls)
  | batteryPacks_ => λ v ls,
      LocalStorage (cellModelsItem ls) v (carsItem ls) (carBatteryPacksItem ls)
  | cars_ => λ v ls,
      LocalStorage (cellModelsItem ls) (batteryPacksItem ls) v (carBatteryPacksItem ls)
  | carBatteryPacks_ => λ v ls,
      LocalStorage (cellModelsItem ls) (batteryPacksItem ls) (carsItem ls) v
  end.

(** ** Effects: state and exceptions

    Every operation runs against the storage and either returns or throws.
    A [throw] keeps the storage as it is at that point, so a write that
    precedes a throw stays visible.  [writes] counts the calls of [setItem]
    and [removeItem]. *)

Inductive error :=
  | CellModelNotFound
  | CellModelReferenced
  | InvalidCellModelId
  | BatteryPackNotFound
  | BatteryPackReferenced
  | CarNotFound
  | CarReferenced
  | InvalidCarId
  | InvalidBatteryPackId
  | RelationNotFound.

Definition message (e : error) : string :=
  match e with
  | CellModelNotFound => "Cell model not found"
  | CellModelReferenced => "Cannot delete cell model: it is referenced by battery packs"
  | InvalidCellModelId => "Invalid cellModelId: cell model does not exist"
  | BatteryPackNotFound => "Battery pack not found"
  | BatteryPackReferenced => "Cannot delete battery pack: it is referenced by car-battery relations"
  | CarNotFound => "Car not found"
  | CarReferenced => "Cannot delete car: it is referenced by car-battery relations"
  | InvalidCarId => "Invalid carId: car does not exist"
  | InvalidBatteryPackId => "Invalid batteryPackId: battery pack does not exist"
  | RelationNotFound => "Relation not found"
  end.

Record world := World {
  storage : localStorage;
  writes : nat
}.

Inductive outcome (A : Type) :=
  | Return (a : A)
  | Throw (e : error).
Arguments Return {A} a.
Arguments Throw {A} e.

Definition js (A : Type) : Type := world → outcome A * world.

Global Instance js_ret : MRet js := λ A a w, (Return a, w).

Global Instance js_bind : MBind js := λ A B f m w,
  match m w with
  | (Return a, w') => f a w'
  | (Throw e, w') => (Throw e, w')
  end.

Definition throw {A : Type} (e : error) : js A := λ w, (Throw e, w).

Definition getItem (tbl : TABLES) : js (option (list (row tbl))) :=
  λ w, (Return (lookupItem tbl (storage w)), w).

Definition setItem (tbl : TABLES) (v : list (row tbl)) : js unit :=
  λ w, (Return (), World (storeItem tbl (Some v) (storage w)) (S (writes w))).

Definition removeItem (tbl : TABLES) : js unit :=
  λ w, (Return (), World (storeItem tbl None (storage w)) (S (writes w))).

(** [xs.forEach(f)] *)
Fixpoint forEach {A B : Type} (f : A → js B) (xs : list A) : js unit :=
  match xs with
  | [] => mret ()
  | x :: xs' => f x ;; forEach f xs'
  end.

(** ** Helpers *)

Definition getTable (tableName : TABLES) : js (list (row tableName)) :=
  data ← getItem tableName;
  mret (match data with Some items => items | None => [] end).

Definition saveTable (tableName : TABLES) (data : list (row tableName)) : js unit :=
  setItem tableName (map stringify_parse data).

(** [Math.max(...xs)] of a list that is not empty, given as head and tail. *)
Definition Math_max (x : Z) (xs : list Z) : Z := fold_left Z.max xs x.

(** [items.length === 0 ? 1 : Math.max(...items.map(i => i.id)) + 1], the sum
    taken in the integers (see the note on records). *)
Definition getNextId (tableName : TABLES) : js Z :=
  items ← getTable tableName;
  mret (match map row_id items with
        | [] => 1
        | x :: xs => Math_max x xs + 1
        end).

(** [item.id === v] *)
Definition id_is (i : Z) (v : field) : bool := strict_eq (num i) v.

Definition validateFK (fkValue : field) (referencedTable : TABLES) : js bool :=
  match fkValue with
  | None | Some VNull => mret true
  | _ =>
      table ← getTable referencedTable;
      mret (existsb (λ item, id_is (row_id item) fkValue) table)
  end.

(** [xs.findIndex(p)] together with [xs[index]]; [None] is the index -1. *)
Definition findIndex {A : Type} (p : A → bool) (xs : list A) : option (nat * A) :=
  list_find (λ x, p x = true) xs.

(** ** CRUD operations

    The four tables are given from the leaf of the dependency order upwards,
    because [remove] of a table reads the table that refers to it. *)

Module carBatteryPacks.
Import CarBatteryPack.

Definition list_ : js (list t) := getTable carBatteryPacks_.

Definition get (id : field) : js (option t) :=
  items ← list_;
  mret (List.find (λ item, id_is (CarBatteryPack.id item) id) items).

Definition create (data : object) : js t :=
  okCar ← validateFK (data !! "carId") cars_;
  if negb okCar then throw InvalidCarId else
  okPack ← validateFK (data !! "batteryPackId") batteryPacks_;
  if negb okPack then throw InvalidBatteryPackId else
  items ← list_;
  nextId ← getNextId carBatteryPacks_;
  let newItem :=
    {| id := nextId;
       carId := data !! "carId";
       batteryPackId := data !! "batteryPackId" |} in
  saveTable carBatteryPacks_ (items ++ [newItem]);;
  mret newItem.

Definition update (id : field) (data : object) : js t :=
  okCar ← match data !! "carId" with
          | Some _ => validateFK (data !! "carId") cars_
          | None => mret true
          end;
  if negb okCar then throw InvalidCarId else
  okPack ← match data !! "batteryPackId" with
           | Some _ => validateFK (data !! "batteryPackId") batteryPacks_
           | None => mret true
           end;
  if negb okPack then throw InvalidBatteryPackId else
  items ← list_;
  match findIndex (λ item, id_is (CarBatteryPack.id item) id) items with
  | None => throw RelationNotFound
  | Some (index, old) =>
      let new :=
        {| id := CarBatteryPack.id old;
           carId := if_defined (data !! "carId") (carId old);
           batteryPackId := if_defined (data !! "batteryPackId") (batteryPackId old) |} in
      saveTable carBatteryPacks_ (<[index := new]> items);;
      mret new
  end.

Definition remove (id : field) : js bool :=
  items ← list_;
  let filtered := List.filter (λ item, negb (id_is (CarBatteryPack.id item) id)) items in
  if Nat.eqb (length filtered) (length items) then throw RelationNotFound else
  saveTable carBatteryPacks_ filtered;;
  mret true.

Definition getByCarId (carId : field) : js (list t) :=
  items ← list_;
  mret (List.filter (λ item, strict_eq (CarBatteryPack.carId item) carId) items).

Definition getByBatteryPackId (batteryPackId : field) : js (list t) :=
  items ← list_;
  mret (List.filter (λ item, strict_eq (CarBatteryPack.batteryPackId item) batteryPackId) items).
End carBatteryPacks.

Module cars.
Import Car.

Definition list_ : js (list t) := getTable cars_.

Definition get (id : field) : js (option t) :=
  items ← list_;
  mret (List.find (λ item, id_is (Car.id item) id) items).

Definition create (data : object) : js t :=
  items ← list_;
  nextId ← getNextId cars_;
  let newItem :=
    {| id := nextId;
       brand := or_else (data !! "brand") (str "");
       model := or_else (data !! "model") (str "");
       trim := or_else (data !! "trim") null;
       yearStart := or_else (data !! "yearStart") null;
       yearEnd := or_else (data !! "yearEnd") null |} in
  saveTable cars_ (items ++ [newItem]);;
  mret newItem.

Definition update (id : field) (data : object) : js t :=
  items ← list_;
  match findIndex (λ item, id_is (Car.id item) id) items with
  | None => throw CarNotFound
  | Some (index, old) =>
      let new :=
        {| id := Car.id old;
           brand := if_defined (data !! "brand") (brand old);
           model := if_defined (data !! "model") (model old);
           trim := if_defined (data !! "trim") (trim old);
           yearStart := if_defined (data !! "yearStart") (yearStart old);
           yearEnd := if_defined (data !! "yearEnd") (yearEnd old) |} in
      saveTable cars_ (<[index := new]> items);;
      mret new
  end.

Definition remove (id : field) : js bool :=
  relations ← carBatteryPacks.list_;
  if existsb (λ rel, strict_eq (CarBatteryPack.carId rel) id) relations
  then throw CarReferenced else
  items ← list_;
  let filtered := List.filter (λ item, negb (id_is (Car.id item) id)) items in
  if Nat.eqb (length filtered) (length items) then throw CarNotFound else
  saveTable cars_ filtered;;
  mret true.
End cars.

Module batteryPacks.
Import BatteryPack.

Definition list_ : js (list t) := getTable batteryPacks_.

Definition get (id : field) : js (option t) :=
  items ← list_;
  mret (List.find (λ item, id_is (BatteryPack.id item) id) items).

Definition create (data : object) : js t :=
  ok ← validateFK (data !! "cellModelId") cellModels_;
  if negb ok then throw InvalidCellModelId else
  items ← list_;
  nextId ← getNextId batteryPacks_;
  let newItem :=
    {| id := nextId;
       name := or_else (data !! "name") (str "");
       totalCapacityKwh := or_else (data !! "totalCapacityKwh") null;
       seriesCount := or_else (data !! "seriesCount") null;
       parallelCount := or_else (data !! "parallelCount") null;
       cellCount := or_else (data !! "cellCount") null;
       cellModelId := or_else (data !! "cellModelId") null |} in
  saveTable batteryPacks_ (items ++ [newItem]);;
  mret newItem.

Definition update (id : field) (data : object) : js t :=
  ok ← match data !! "cellModelId" with
       | Some _ => validateFK (data !! "cellModelId") cellModels_
       | None => mret true
       end;
  if negb ok then throw InvalidCellModelId else
  items ← list_;
  match findIndex (λ item, id_is (BatteryPack.id item) id) items with
  | None => throw BatteryPackNotFound
  | Some (index, old) =>
      let new :=
        {| id := BatteryPack.id old;
           name := if_defined (data !! "name") (name old);
           totalCapacityKwh := if_defined (data !! "totalCapacityKwh") (totalCapacityKwh old);
           seriesCount := if_defined (data !! "seriesCount") (seriesCount old);
           parallelCount := if_defined (data !! "parallelCount") (parallelCount old);
           cellCount := if_defined (data !! "cellCount") (cellCount old);
           cellModelId := if_defined (data !! "cellModelId") (cellModelId old) |} in
      saveTable batteryPacks_ (<[index := new]> items);;
      mret new
  end.

Definition remove (id : field) : js bool :=
  relations ← carBatteryPacks.list_;
  if existsb (λ rel, strict_eq (CarBatteryPack.batteryPackId rel) id) relations
  then throw BatteryPackReferenced else
  items ← list_;
  let filtered := List.filter (λ item, negb (id_is (BatteryPack.id item) id)) items in
  if Nat.eqb (length filtered) (length items) then throw BatteryPackNotFound else
  saveTable batteryPacks_ filtered;;
  mret true.
End batteryPacks.

Module cellModels.
Import CellModel.

Definition list_ : js (list t) := getTable cellModels_.

Definition get (id : field) : js (option t) :=
  items ← list_;
  mret (List.find (λ item, id_is (CellModel.id item) id) items).

Definition create (data : object) : js t :=
  items ← list_;
  nextId ← getNextId cellModels_;
  let newItem :=
    {| id := nextId;
       manufacturer := or_else (data !! "manufacturer") (str "");
       model := or_else (data !! "model") (str "");
       chemistry := or_else (data !! "chemistry") (str "");
       nominalVoltage := or_else (data !! "nominalVoltage") null;
       nominalCapacityMah := or_else (data !! "nominalCapacityMah") null |} in
  saveTable cellModels_ (items ++ [newItem]);;
  mret newItem.

Definition update (id : field) (data : object) : js t :=
  items ← list_;
  match findIndex (λ item, id_is (CellModel.id item) id) items with
  | None => throw CellModelNotFound
  | Some (index, old) =>
      let new :=
        {| id := CellModel.id old;
           manufacturer := if_defined (data !! "manufacturer") (manufacturer old);
           model := if_defined (data !! "model") (model old);
           chemistry := if_defined (data !! "chemistry") (chemistry old);
           nominalVoltage := if_defined (data !! "nominalVoltage") (nominalVoltage old);
           nominalCapacityMah :=
             if_defined (data !! "nominalCapacityMah") (nominalCapacityMah old) |} in
      saveTable cellModels_ (<[index := new]> items);;
      mret new
  end.

Definition remove (id : field) : js bool :=
  packs ← batteryPacks.list_;
  if existsb (λ pack, strict_eq (BatteryPack.cellModelId pack) id) packs
  then throw CellModelReferenced else
  items ← list_;
  let filtered := List.filter (λ item, negb (id_is (CellModel.id item) id)) items in
  if Nat.eqb (length filtered) (length items) then throw CellModelNotFound else
  saveTable cellModels_ filtered;;
  mret true.
End cellModels.

(** ** The public API: seeding, reset and export *)

(** An object literal whose keys are all different. *)
Definition obj (properties : list (string * value)) : object := list_to_map properties.
Definition int (z : Z) : value := VNum (Fin (inject_Z z)).
Definition dec (n : Z) (d : positive) : value := VNum (Fin (n # d)).

Module DB.
Definition cellModelsData : list object :=
  [
    obj [("manufacturer", VStr "Shenzhen Starax Energy Technology");
         ("model", VStr "S28(B28)"); ("chemistry", VStr "Li-ION");
         ("nominalVoltage", dec 363 100); ("nominalCapacityMah", int 55000)];
    obj [("manufacturer", VStr "LG"); ("model", VStr "E63"); ("chemistry", VStr "Li-iON");
         ("nominalVoltage", dec 36 10); ("nominalCapacityMah", int 64800)];
    obj [("manufacturer", VStr "Panasonic"); ("model", VStr "NCR18650B");
         ("chemistry", VStr "Li-ION"); ("nominalVoltage", dec 36 10);
         ("nominalCapacityMah", int 3350)];
    obj [("manufacturer", VStr "LG"); ("model", VStr "INR21700-M50");
         ("chemistry", VStr "Li-ION"); ("nominalVoltage", dec 363 100);
         ("nominalCapacityMah", VNull)];
    obj [("manufacturer", VStr "Panasonic"); ("model", VStr "NCR21700");
         ("chemistry", VStr "Li-ION"); ("nominalVoltage", dec 36 10);
         ("nominalCapacityMah", int 5000)];
    obj [("manufacturer", VStr "Panasonic"); ("model", VStr "Prismatic PHEV2 - 22Ah");
         ("chemistry", VStr "Li-ION"); ("nominalVoltage", dec 36 10);
         ("nominalCapacityMah", int 22000)];
    obj [("manufacturer", VStr "Panasonic"); ("model", VStr "Prismatic PHEV2 - 25Ah");
         ("chemistry", VStr "Li-ION"); ("nominalVoltage", dec 36 10);
         ("nominalCapacityMah", int 25000)];
    obj [("manufacturer", VStr "Panasonic"); ("model", VStr "Prismatic PHEV2 - 51Ah");
         ("chemistry", VStr "Li-ION"); ("nominalVoltage", dec 37 10);
         ("nominalCapacityMah", int 51000)];
    obj [("manufacturer", VStr "Ennocar"); ("model", VStr "EC-H-Series-INS-G2-100.8");
         ("chemistry", VStr "Ni-MH"); ("nominalVoltage", dec 144 10);
         ("nominalCapacityMah", int 6500)];
    obj [("manufacturer", VStr "Ennocar"); ("model", VStr "EC-T-SERIES-SP-AQUA-7.2V");
         ("chemistry", VStr "Ni-MH"); ("nominalVoltage", dec 72 10);
         ("nominalCapacityMah", int 6500)];
    obj [("manufacturer", VStr "AESC"); ("model", VStr "32,5Ah Pouch");
         ("chemistry", VStr "Li-ION"); ("nominalVoltage", dec 38 10);
         ("nominalCapacityMah", int 65000)];
    obj [("manufacturer", VStr "AESC"); ("model", VStr "43Ah Pouch");
         ("chemistry", VStr "Li-ION"); ("nominalVoltage", dec 37 10);
         ("nominalCapacityMah", int 86000)];
    obj [("manufacturer", VStr "GS Yuasa"); ("model", VStr "LEV40");
         ("chemistry", VStr "Li-ION"); ("nominalVoltage", dec 375 100);
         ("nominalCapacityMah", int 40000)];
    obj [("manufacturer", VStr "GS Yuasa"); ("model", VStr "LEV40N");
         ("chemistry", VStr "Li-ION"); ("nominalVoltage", dec 375 100);
         ("nominalCapacityMah", int 40000)];
    obj [("manufacturer", VStr "GS Yuasa"); ("model", VStr "LEV50");
         ("chemistry", VStr "Li-ION"); ("nominalVoltage", dec 375 100);
         ("nominalCapacityMah", int 50000)];
    obj [("manufacturer", VStr "GS Yuasa"); ("model", VStr "LEV50N");
         ("chemistry", VStr "Li-ION"); ("nominalVoltage", dec 375 100);
         ("nominalCapacityMah", int 40000)];
    obj [("manufacturer", VStr "Samsung SDI"); ("model", VStr "Prismatic 60Ah");
         ("chemistry", VStr "Li-ION"); ("nominalVoltage", dec 368 100);
         ("nominalCapacityMah", int 60000)];
    obj [("manufacturer", VStr "Samsung SDI"); ("model", VStr "Prismatic 94Ah");
         ("chemistry", VStr "Li-ION"); ("nominalVoltage", dec 368 100);
         ("nominalCapacityMah", int 94000)];
    obj [("manufacturer", VStr "Samsung SDI"); ("model", VStr "Prismatic 120Ah");
         ("chemistry", VStr "Li-ION"); ("nominalVoltage", dec 368 100);
         ("nominalCapacityMah", int 120000)];
    obj [("manufacturer", VStr "Toyota"); ("model", VStr "NP2.0");
         ("chemistry", VStr "Ni-MH"); ("nominalVoltage", dec 72 10);
         ("nominalCapacityMah", int 6500)];
    obj [("manufacturer", VStr "Panasonic"); ("model", VStr "NCR2170A");
         ("chemistry", VStr "Li-ION"); ("nominalVoltage", dec 36 10);
         ("nominalCapacityMah", int 4800)];
    obj [("manufacturer", VStr "Panasonic"); ("model", VStr "NCR18650GA");
         ("chemistry", VStr "Li-ION"); ("nominalVoltage", dec 36 10);
         ("nominalCapacityMah", int 3500)]
  ].

Definition carsData : list object :=
  [
    obj [("brand", VStr "BMW"); ("model", VStr "i3"); ("trim", VNull);
         ("yearStart", int 2013); ("yearEnd", int 2016)];
    obj [("brand", VStr "BMW"); ("model", VStr "i3"); ("trim", VNull);
         ("yearStart", int 2016); ("yearEnd", int 2018)];
    obj [("brand", VStr "BMW"); ("model", VStr "i3s"); ("trim", VNull);
         ("yearStart", int 2017); ("yearEnd", int 2018)];
    obj [("brand", VStr "Citroën"); ("model", VStr "C-zero"); ("trim", VNull);
         ("yearStart", int 2010); ("yearEnd", int 2013)];
    obj [("brand", VStr "Citroën"); ("model", VStr "C-zero"); ("trim", VNull);
         ("yearStart", int 2013); ("yearEnd", int 2016)];
    obj [("brand", VStr "Citroën"); ("model", VStr "C-zero"); ("trim", VNull);
         ("yearStart", int 2016); ("yearEnd", int 2020)];
    obj [("brand", VStr "Hyundai"); ("model", VStr "Kona"); ("trim", VStr "64kWh");
         ("yearStart", int 2017); ("yearEnd", int 2023)];
    obj [("brand", VStr "Hyundai"); ("model", VStr "Kona"); ("trim", VStr "39.2kWh");
         ("yearStart", int 2017); ("yearEnd", int 2023)];
    obj [("brand", VStr "Mitsubishi"); ("model", VStr "i-MiEV"); ("trim", VNull);
         ("yearStart", int 2010); ("yearEnd", int 2013)];
    obj [("brand", VStr "Mitsubishi"); ("model", VStr "i-MiEV"); ("trim", VNull);
         ("yearStart", int 2013); ("yearEnd", int 2016)];
    obj [("brand", VStr "Mitsubishi"); ("model", VStr "i-MiEV"); ("trim", VNull);
         ("yearStart", int 2016); ("yearEnd", int 2020)];
    obj [("brand", VStr "Mitsubishi"); ("model", VStr "Outlander PHEV"); ("trim", VNull);
         ("yearStart", int 2013); ("yearEnd", int 2018)];
    obj [("brand", VStr "Mitsubishi"); ("model", VStr "Outlander PHEV"); ("trim", VNull);
         ("yearStart", int 2018); ("yearEnd", int 2021)];
    obj [("brand", VStr "Mitsubishi"); ("model", VStr "Outlander PHEV"); ("trim", VNull);
         ("yearStart", int 2021); ("yearEnd", int 2024)];
    obj [("brand", VStr "Nissan"); ("model", VStr "Leaf"); ("trim", VStr "24kWh");
         ("yearStart", int 2010); ("yearEnd", int 2016)];
    obj [("brand", VStr "Nissan"); ("model", VStr "Leaf"); ("trim", VStr "30kWh");
         ("yearStart", int 2016); ("yearEnd", int 2017)];
    obj [("brand", VStr "Peugeot"); ("model", VStr "iOn"); ("trim", VNull);
         ("yearStart", int 2010); ("yearEnd", int 2013)];
    obj [("brand", VStr "Peugeot"); ("model", VStr "iOn"); ("trim", VNull);
         ("yearStart", int 2013); ("yearEnd", int 2016)];
    obj [("brand", VStr "Peugeot"); ("model", VStr "iOn"); ("trim", VNull);
         ("yearStart", int 2016); ("yearEnd", int 2020)];
    obj [("brand", VStr "Tesla"); ("model", VStr "Model 3");
         ("trim", VStr "Long Range Performance"); ("yearStart", int 2019);
         ("yearEnd", int 2020)];
    obj [("brand", VStr "Tesla"); ("model", VStr "Model 3");
         ("trim", VStr "Standard Range Plus"); ("yearStart", int 2019); ("yearEnd", int 2020)];
    obj [("brand", VStr "Tesla"); ("model", VStr "Model S"); ("trim", VStr "P85");
         ("yearStart", int 2012); ("yearEnd", int 2014)];
    obj [("brand", VStr "Tesla"); ("model", VStr "Model S"); ("trim", VStr "P100D");
         ("yearStart", int 2016); ("yearEnd", int 2019)];
    obj [("brand", VStr "Tesla"); ("model", VStr "Model X"); ("trim", VStr "P100D");
         ("yearStart", int 2017); ("yearEnd", int 2019)];
    obj [("brand", VStr "Toyota"); ("model", VStr "Prius"); ("trim", VNull);
         ("yearStart", int 2000); ("yearEnd", int 2003)];
    obj [("brand", VStr "Toyota"); ("model", VStr "Prius"); ("trim", VNull);
         ("yearStart", int 2003); ("yearEnd", int 2009)];
    obj [("brand", VStr "Toyota"); ("model", VStr "Prius PHEV"); ("trim", VNull);
         ("yearStart", int 2012); ("yearEnd", int 2016)];
    obj [("brand", VStr "Toyota"); ("model", VStr "Prius PHEV"); ("trim", VNull);
         ("yearStart", int 2016); ("yearEnd", int 2022)]
  ].

Definition batteryPacksData : list object :=
  [
    obj [("name", VStr "BMW i3 21.6kWh (Samsung 60Ah)"); ("totalCapacityKwh", dec 216 10);
         ("seriesCount", VNull); ("parallelCount", VNull); ("cellCount", VNull);
         ("cellModelId", int 17)];
    obj [("name", VStr "BMW i3 33.2kWh (Samsung 94Ah)"); ("totalCapacityKwh", dec 332 10);
         ("seriesCount", VNull); ("parallelCount", VNull); ("cellCount", VNull);
         ("cellModelId", int 18)];
    obj [("name", VStr "Citroën C-zero 16kWh (LEV50)"); ("totalCapacityKwh", int 16);
         ("seriesCount", VNull); ("parallelCount", VNull); ("cellCount", VNull);
         ("cellModelId", int 15)];
    obj [("name", VStr "Citroën C-zero 16kWh (LEV50N)"); ("totalCapacityKwh", int 16);
         ("seriesCount", VNull); ("parallelCount", VNull); ("cellCount", VNull);
         ("cellModelId", int 16)];
    obj [("name", VStr "Hyundai Kona 64kWh"); ("totalCapacityKwh", int 64);
         ("seriesCount", VNull); ("parallelCount", VNull); ("cellCount", VNull);
         ("cellModelId", int 1)];
    obj [("name", VStr "Hyundai Kona 39.2kWh"); ("totalCapacityKwh", dec 392 10);
         ("seriesCount", VNull); ("parallelCount", VNull); ("cellCount", VNull);
         ("cellModelId", int 1)];
    obj [("name", VStr "Mitsubishi i-MiEV 16kWh (LEV50)"); ("totalCapacityKwh", int 16);
         ("seriesCount", VNull); ("parallelCount", VNull); ("cellCount", VNull);
         ("cellModelId", int 15)];
    obj [("name", VStr "Mitsubishi i-MiEV 16kWh (LEV50N)"); ("totalCapacityKwh", int 16);
         ("seriesCount", VNull); ("parallelCount", VNull); ("cellCount", VNull);
         ("cellModelId", int 16)];
    obj [("name", VStr "Mitsubishi Outlander 12kWh"); ("totalCapacityKwh", int 12);
         ("seriesCount", VNull); ("parallelCount", VNull); ("cellCount", VNull);
         ("cellModelId", int 13)];
    obj [("name", VStr "Mitsubishi Outlander 13.8kWh"); ("totalCapacityKwh", dec 138 10);
         ("seriesCount", VNull); ("parallelCount", VNull); ("cellCount", VNull);
         ("cellModelId", int 14)];
    obj [("name", VStr "Mitsubishi Outlander 20kWh"); ("totalCapacityKwh", int 20);
         ("seriesCount", VNull); ("parallelCount", VNull); ("cellCount", VNull);
         ("cellModelId", int 14)];
    obj [("name", VStr "Nissan Leaf 24kWh"); ("totalCapacityKwh", int 24);
         ("seriesCount", VNull); ("parallelCount", VNull); ("cellCount", VNull);
         ("cellModelId", int 11)];
    obj [("name", VStr "Nissan Leaf 30kWh"); ("totalCapacityKwh", int 30);
         ("seriesCount", VNull); ("parallelCount", VNull); ("cellCount", VNull);
         ("cellModelId", int 12)];
    obj [("name", VStr "Tesla Model 3 LR 78.8kWh"); ("totalCapacityKwh", dec 788 10);
         ("seriesCount", VNull); ("parallelCount", VNull); ("cellCount", VNull);
         ("cellModelId", int 21)];
    obj [("name", VStr "Tesla Model 3 SR 53.1kWh"); ("totalCapacityKwh", dec 531 10);
         ("seriesCount", VNull); ("parallelCount", VNull); ("cellCount", VNull);
         ("cellModelId", int 21)];
    obj [("name", VStr "Tesla Model S 85kWh"); ("totalCapacityKwh", int 85);
         ("seriesCount", VNull); ("parallelCount", VNull); ("cellCount", VNull);
         ("cellModelId", int 3)];
    obj [("name", VStr "Tesla Model S 100kWh"); ("totalCapacityKwh", int 100);
         ("seriesCount", VNull); ("parallelCount", VNull); ("cellCount", VNull);
         ("cellModelId", int 22)];
    obj [("name", VStr "Toyota Prius 1.78kWh"); ("totalCapacityKwh", dec 178 100);
         ("seriesCount", VNull); ("parallelCount", VNull); ("cellCount", VNull);
         ("cellModelId", int 20)];
    obj [("name", VStr "Toyota Prius 1.3kWh"); ("totalCapacityKwh", dec 13 10);
         ("seriesCount", VNull); ("parallelCount", VNull); ("cellCount", VNull);
         ("cellModelId", int 20)];
    obj [("name", VStr "Toyota Prius PHEV 5.2kWh"); ("totalCapacityKwh", dec 52 10);
         ("seriesCount", VNull); ("parallelCount", VNull); ("cellCount", VNull);
         ("cellModelId", int 6)];
    obj [("name", VStr "Toyota Prius PHEV 8.8kWh"); ("totalCapacityKwh", dec 88 10);
         ("seriesCount", VNull); ("parallelCount", VNull); ("cellCount", VNull);
         ("cellModelId", int 6)]
  ].

Definition relations : list object :=
  [
    obj [("carId", int 1); ("batteryPackId", int 1)];
    obj [("carId", int 2); ("batteryPackId", int 2)];
    obj [("carId", int 3); ("batteryPackId", int 2)];
    obj [("carId", int 4); ("batteryPackId", int 3)];
    obj [("carId", int 5); ("batteryPackId", int 4)];
    obj [("carId", int 6); ("batteryPackId", int 4)];
    obj [("carId", int 7); ("batteryPackId", int 5)];
    obj [("carId", int 8); ("batteryPackId", int 6)];
    obj [("carId", int 9); ("batteryPackId", int 7)];
    obj [("carId", int 10); ("batteryPackId", int 8)];
    obj [("carId", int 11); ("batteryPackId", int 8)];
    obj [("carId", int 12); ("batteryPackId", int 9)];
    obj [("carId", int 13); ("batteryPackId", int 10)];
    obj [("carId", int 14); ("batteryPackId", int 11)];
    obj [("carId", int 15); ("batteryPackId", int 12)];
    obj [("carId", int 16); ("batteryPackId", int 13)];
    obj [("carId", int 17); ("batteryPackId", int 3)];
    obj [("carId", int 18); ("batteryPackId", int 4)];
    obj [("carId", int 19); ("batteryPackId", int 4)];
    obj [("carId", int 20); ("batteryPackId", int 14)];
    obj [("carId", int 21); ("batteryPackId", int 15)];
    obj [("carId", int 22); ("batteryPackId", int 16)];
    obj [("carId", int 23); ("batteryPackId", int 17)];
    obj [("carId", int 24); ("batteryPackId", int 17)];
    obj [("carId", int 25); ("batteryPackId", int 18)];
    obj [("carId", int 26); ("batteryPackId", int 19)];
    obj [("carId", int 27); ("batteryPackId", int 20)];
    obj [("carId", int 28); ("batteryPackId", int 21)]
  ].

Definition loadInitialData : js unit :=
  forEach cellModels.create cellModelsData;;
  forEach cars.create carsData;;
  forEach batteryPacks.create batteryPacksData;;
  forEach carBatteryPacks.create relations.

Definition initDB : js unit :=
  existing ← getItem cellModels_;
  match existing with
  | None => loadInitialData
  | Some _ => mret ()
  end.

Definition reset : js unit :=
  removeItem cellModels_;;
  removeItem batteryPacks_;;
  removeItem cars_;;
  removeItem carBatteryPacks_;;
  initDB.


End DB.

(** The tables of a storage, as [export] shows them. *)
Definition table (tbl : TABLES) (ls : localStorage) : list (row tbl) :=
  match lookupItem tbl ls with Some items => items | None => [] end.

Definition emptyWorld : world := World emptyStorage 0.

(** The state right after the page has loaded for the first time. *)
Definition seededWorld : world := snd (DB.initDB emptyWorld).

(** The operations by table, [T.create tbl x] for [T.create(x)]. *)
Module T.
Definition get (tbl : TABLES) : field → js (option (row tbl)) :=
  match tbl with
  | cellModels_ => cellModels.get
  | batteryPacks_ => batteryPacks.get
  | cars_ => cars.get
  | carBatteryPacks_ => carBatteryPacks.get
  end.

Definition create (tbl : TABLES) : object → js (row tbl) :=
  match tbl with
  | cellModels_ => cellModels.create
  | batteryPacks_ => batteryPacks.create
  | cars_ => cars.create
  | carBatteryPacks_ => carBatteryPacks.create
  end.

Definition update (tbl : TABLES) : field → object → js (row tbl) :=
  match tbl with
  | cellModels_ => cellModels.update
  | batteryPacks_ => batteryPacks.update
  | cars_ => cars.update
  | carBatteryPacks_ => carBatteryPacks.update
  end.

Definition remove (tbl : TABLES) : field → js bool :=
  match tbl with
  | cellModels_ => cellModels.remove
  | batteryPacks_ => batteryPacks.remove
  | cars_ => cars.remove
  | carBatteryPacks_ => carBatteryPacks.remove
  end.
End T.

(** The failure classes of the interface.  db.js throws plain [Error]
    objects that differ by message only; each message falls in one class. *)
Inductive failure := ValidationError | NotFoundError | ConflictError.

Definition classify (e : error) : failure :=
  match e with
  | InvalidCellModelId | InvalidCarId | InvalidBatteryPackId => ValidationError
  | CellModelNotFound | BatteryPackNotFound | CarNotFound | RelationNotFound => NotFoundError
  | CellModelReferenced | BatteryPackReferenced | CarReferenced => ConflictError
  end.

(** The identifiers of a table, in storage order. *)
Definition ids (tbl : TABLES) (ls : localStorage) : list Z := map row_id (table tbl ls).

(** [fk] is null, absent, or the identifier of one of [targets]. *)
Definition resolves (fk : field) (targets : list Z) : bool :=
  match fk with
  | None | Some VNull => true
  | _ => existsb (λ i, id_is i fk) targets
  end.

(** * Vocabulary of the statements *)

Global Instance TABLES_eq_dec : EqDecision TABLES.
Proof. solve_decision. Defined.

(** The declared foreign keys of a record, each with the table it points to. *)
Definition fks {tbl : TABLES} : row tbl → list (field * TABLES) :=
  match tbl with
  | cellModels_ => λ _, []
  | batteryPacks_ => λ r, [(BatteryPack.cellModelId r, cellModels_)]
  | cars_ => λ _, []
  | carBatteryPacks_ => λ r,
      [(CarBatteryPack.carId r, cars_); (CarBatteryPack.batteryPackId r, batteryPacks_)]
  end.

(** The identifier [getNextId] computes from the identifiers of a table. *)
Definition nextId (l : list Z) : Z :=
  match l with
  | [] => 1
  | x :: xs => Math_max x xs + 1
  end.

(** [r[k]]: reading a property of a stored record by name. *)
Definition attribute {tbl : TABLES} : row tbl → string → field :=
  match tbl with
  | cellModels_ => λ r k,
      if String.eqb k "id" then num (CellModel.id r)
      else if String.eqb k "manufacturer" then CellModel.manufacturer r
      else if String.eqb k "model" then CellModel.model r
      else if String.eqb k "chemistry" then CellModel.chemistry r
      else if String.eqb k "nominalVoltage" then CellModel.nominalVoltage r
      else if String.eqb k "nominalCapacityMah" then CellModel.nominalCapacityMah r
      else None
  | batteryPacks_ => λ r k,
      if String.eqb k "id" then num (BatteryPack.id r)
      else if String.eqb k "name" then BatteryPack.name r
      else if String.eqb k "totalCapacityKwh" then BatteryPack.totalCapacityKwh r
      else if String.eqb k "seriesCount" then BatteryPack.seriesCount r
      else if String.eqb k "parallelCount" then BatteryPack.parallelCount r
      else if String.eqb k "cellCount" then BatteryPack.cellCount r
      else if String.eqb k "cellModelId" then BatteryPack.cellModelId r
      else None
  | cars_ => λ r k,
      if String.eqb k "id" then num (Car.id r)
      else if String.eqb k "brand" then Car.brand r
      else if String.eqb k "model" then Car.model r
      else if String.eqb k "trim" then Car.trim r
      else if String.eqb k "yearStart" then Car.yearStart r
      else if String.eqb k "yearEnd" then Car.yearEnd r
      else None
  | carBatteryPacks_ => λ r k,
      if String.eqb k "id" then num (CarBatteryPack.id r)
      else if String.eqb k "carId" then CarBatteryPack.carId r
      else if String.eqb k "batteryPackId" then CarBatteryPack.batteryPackId r
      else None
  end.

(** The world after [saveTable tbl data]. *)
Definition saved (tbl : TABLES) (data : list (row tbl)) (w : world) : world :=
  World (storeItem tbl (Some (map stringify_parse data)) (storage w)) (S (writes w)).

(** The records of [tbl] that [remove id] keeps. *)
Definition others (tbl : TABLES) (id : field) (items : list (row tbl)) : list (row tbl) :=
  List.filter (λ item, negb (id_is (row_id item) id)) items.

(** Every declared foreign key of every stored record is null, absent or the
    identifier of a record of its target table. *)
Definition referential_integrity (ls : localStorage) : Prop :=
  ∀ tbl (r : row tbl), In r (table tbl ls) →
  ∀ fk target, In (fk, target) (fks r) → resolves fk (ids target ls) = true.

(** The same, read off a key: a key that holds a value other than null is the
    identifier of a record of [target]. *)
Definition refers_to (fk : field) (target : TABLES) (ls : localStorage) : Prop :=
  ∀ v, fk = Some v → v ≠ VNull →
  ∃ r : row target, In r (table target ls) ∧ id_is (row_id r) (Some v) = true.

(** The calls of the public interface that write. *)
Inductive operation :=
  | Create (tbl : TABLES) (x : object)
  | Update (tbl : TABLES) (id : field) (x : object)
  | Remove (tbl : TABLES) (id : field).

(** A call, with its result dropped. *)
Definition perform (op : operation) : js () :=
  match op with
  | Create tbl x => T.create tbl x ;; mret ()
  | Update tbl id x => T.update tbl id x ;; mret ()
  | Remove tbl id => T.remove tbl id ;; mret ()
  end.

(** The states the store can be in: the empty storage, the seeded one, and
    whatever a call leaves behind, whether it returned or threw. *)
Inductive reachable : world → Prop :=
  | reachable_empty : reachable emptyWorld
  | reachable_seeded : reachable seededWorld
  | reachable_step op w : reachable w → reachable (snd (perform op w)).

(** [max (ids ∪ {0})] *)
Definition max0 (l : list Z) : Z := fold_right Z.max 0 l.

(** What every table written by [saveTable] looks like: its records are
    what JSON gives back for them. *)
Definition clean (ls : localStorage) : Prop :=
  ∀ tbl (r : row tbl), In r (table tbl ls) → stringify_parse r = r.

(** A clean storage whose identifiers are positive and distinct. *)
Definition well_formed (ls : localStorage) : Prop :=
  clean ls ∧ ∀ tbl, NoDup (ids tbl ls) ∧ Forall (λ i, 0 < i) (ids tbl ls).

(** The invariant of the reachable states. *)
Definition consistent (ls : localStorage) : Prop :=
  referential_integrity ls ∧ well_formed ls.

(** [m] keeps the property [P] of the storage, whether it returns or throws. *)
Definition preserves (P : localStorage → Prop) {A : Type} (m : js A) : Prop :=
  ∀ w, P (storage w) → P (storage (snd (m w))).

(** The field [k] of [x] when it is supplied, the default otherwise. *)
Definition supplied (x : object) (k : string) (default : field) : field :=
  match x !! k with
  | Some v => Some v
  | None => default
  end.

(** The record the interface promises for [create x]: the identifier and the
    merge of the defaults of the table with all the fields supplied in [x].
    The defaults are the ones [create] names: the empty string for
    manufacturer, model, chemistry, name and brand, null elsewhere. *)
Definition merged (tbl : TABLES) (i : Z) (x : object) : row tbl :=
  match tbl with
  | cellModels_ =>
      {| CellModel.id := i;
         CellModel.manufacturer := supplied x "manufacturer" (str "");
         CellModel.model := supplied x "model" (str "");
         CellModel.chemistry := supplied x "chemistry" (str "");
         CellModel.nominalVoltage := supplied x "nominalVoltage" null;
         CellModel.nominalCapacityMah := supplied x "nominalCapacityMah" null |}
  | batteryPacks_ =>
      {| BatteryPack.id := i;
         BatteryPack.name := supplied x "name" (str "");
         BatteryPack.totalCapacityKwh := supplied x "totalCapacityKwh" null;
         BatteryPack.seriesCount := supplied x "seriesCount" null;
         BatteryPack.parallelCount := supplied x "parallelCount" null;
         BatteryPack.cellCount := supplied x "cellCount" null;
         BatteryPack.cellModelId := supplied x "cellModelId" null |}
  | cars_ =>
      {| Car.id := i;
         Car.brand := supplied x "brand" (str "");
         Car.model := supplied x "model" (str "");
         Car.trim := supplied x "trim" null;
         Car.yearStart := supplied x "yearStart" null;
         Car.yearEnd := supplied x "yearEnd" null |}
  | carBatteryPacks_ =>
      {| CarBatteryPack.id := i;
         CarBatteryPack.carId := supplied x "carId" null;
         CarBatteryPack.batteryPackId := supplied x "batteryPackId" null |}
  end.

(** The supplied fields that [create] keeps: those whose value is truthy,
    with the value JSON gives back for them. *)
Definition carried (x : object) : object :=
  json_value <$> filter (λ kv, truthy kv.2 = true) x.

(** The record [create x] leaves in the table.  The junction table takes its
    two keys as supplied and has no default for them. *)
Definition expected (tbl : TABLES) (i : Z) (x : object) : row tbl :=
  match tbl with
  | carBatteryPacks_ =>
      {| CarBatteryPack.id := i;
         CarBatteryPack.carId := x !! "carId";
         CarBatteryPack.batteryPackId := x !! "batteryPackId" |}
  | tbl => merged tbl i (carried x)
  end.

(** The foreign keys supplied in [x] resolve. *)
Definition keys_resolve (tbl : TABLES) (x : object) (ls : localStorage) : bool :=
  match tbl with
  | cellModels_ | cars_ => true
  | batteryPacks_ => resolves (x !! "cellModelId") (ids cellModels_ ls)
  | carBatteryPacks_ =>
      resolves (x !! "carId") (ids cars_ ls)
      && resolves (x !! "batteryPackId") (ids batteryPacks_ ls)
  end.

(** States reached by removing battery packs and junction rows only. *)
Inductive dependents_removed : world → world → Prop :=
  | removed_none w : dependents_removed w w
  | removed_pack w w1 w2 id :
      dependents_removed w w1 →
      batteryPacks.remove id w1 = (Return true, w2) →
      dependents_removed w w2
  | removed_relation w w1 w2 id :
      dependents_removed w w1 →
      carBatteryPacks.remove id w1 = (Return true, w2) →
      dependents_removed w w2.

(** ** Vocabulary of the further properties *)

(** The guard of [remove]: some record of the table that points to [tbl]
    holds [id] in its foreign key.  The junction table has no guard. *)
Definition referenced (tbl : TABLES) (id : field) (ls : localStorage) : bool :=
  match tbl with
  | cellModels_ =>
      existsb (λ pack, strict_eq (BatteryPack.cellModelId pack) id) (table batteryPacks_ ls)
  | batteryPacks_ =>
      existsb (λ rel, strict_eq (CarBatteryPack.batteryPackId rel) id)
              (table carBatteryPacks_ ls)
  | cars_ =>
      existsb (λ rel, strict_eq (CarBatteryPack.carId rel) id) (table carBatteryPacks_ ls)
  | carBatteryPacks_ => false
  end.

(** The properties that [create] and [update] write, besides [id]. *)
Definition columns (tbl : TABLES) : list string :=
  match tbl with
  | cellModels_ =>
      ["manufacturer"; "model"; "chemistry"; "nominalVoltage"; "nominalCapacityMah"]
  | batteryPacks_ =>
      ["name"; "totalCapacityKwh"; "seriesCount"; "parallelCount"; "cellCount"; "cellModelId"]
  | cars_ => ["brand"; "model"; "trim"; "yearStart"; "yearEnd"]
  | carBatteryPacks_ => ["carId"; "batteryPackId"]
  end.


(** A sequence of calls, each running in the state the one before left. *)
Definition run (ops : list operation) (w : world) : world :=
  fold_left (λ w op, snd (perform op w)) ops w.

(** The storage has a [cellModels] entry, which is what [initDB] tests. *)
Definition initialized (ls : localStorage) : Prop := lookupItem cellModels_ ls ≠ None.

(** Every record of the three tables that [create] fills with defaults has
    all its properties; a junction row may lack its keys. *)
Definition all_present (ls : localStorage) : Prop :=
  ∀ tbl (r : row tbl), In r (table tbl ls) → tbl ≠ carBatteryPacks_ →
  ∀ k, In k (columns tbl) → attribute r k ≠ None.

(** ** The completeness checks of the user interface (app.js)

    These compute with doubles; the kernel's binary64 floats carry them. *)

Abbreviation float := PrimFloat.float.

(** The double that holds the integer [z], for [|z| < 2^53]. *)
Definition ofZ (z : Z) : float :=
  if z <? 0 then PrimFloat.opp (PrimFloat.of_uint63 (Uint63.of_Z (- z)))
  else PrimFloat.of_uint63 (Uint63.of_Z z).

(** [Math.round(x)]: the integer closest to [x], the upper one on a tie;
    [x] itself when it is an integer, an infinity or [NaN]. *)
Definition Math_round (x : float) : float :=
  match FloatOps.Prim2SF x with
  | SpecFloat.S754_finite s m (Z.neg p) =>
      let sm := if s then Z.neg m else Z.pos m in
      let z := (2 * sm + 2 ^ Z.pos p) / 2 ^ (Z.pos p + 1) in
      if (z =? 0) && s then PrimFloat.opp (ofZ 0) else ofZ z
  | _ => x
  end.

(** [!a] *)
Definition not_ (a : field) : bool :=
  match a with
  | Some v => negb (truthy v)
  | None => true
  end.

Record validation := Validation {
  isComplete : bool;
  issues : list string;
  completeness : float
}.

(** [if (c) issues.push(msg)] *)
Definition push_if (c : bool) (msg : string) (issues : list string) : list string :=
  if c then issues ++ [msg] else issues.

Definition validateCellModel (cell : CellModel.t) : validation :=
  let issues := [] in
  let issues := push_if (not_ (CellModel.chemistry cell)) "Missing chemistry" issues in
  let issues := push_if (not_ (CellModel.nominalVoltage cell)) "Missing voltage" issues in
  let issues :=
    push_if (not_ (CellModel.nominalCapacityMah cell)) "Missing capacity" issues in
  {| isComplete := Nat.eqb (length issues) 0;
     issues := issues;
     completeness :=
       Math_round (PrimFloat.mul
                     (PrimFloat.div (PrimFloat.sub (ofZ 3) (ofZ (Z.of_nat (length issues))))
                                    (ofZ 3))
                     (ofZ 100)) |}.

Definition validateBatteryPack (pack : BatteryPack.t) : validation :=
  let issues := [] in
  let issues := push_if (not_ (BatteryPack.cellModelId pack)) "Missing cell model" issues in
  let issues := push_if (not_ (BatteryPack.seriesCount pack)) "Missing series count" issues in
  let issues :=
    push_if (not_ (BatteryPack.parallelCount pack)) "Missing parallel count" issues in
  let issues := push_if (not_ (BatteryPack.cellCount pack)) "Missing cell count" issues in
  {| isComplete := Nat.eqb (length issues) 0;
     issues := issues;
     completeness :=
       Math_round (PrimFloat.mul
                     (PrimFloat.div (PrimFloat.sub (ofZ 4) (ofZ (Z.of_nat (length issues))))
                                    (ofZ 4))
                     (ofZ 100)) |}.

Definition validateCar (car : Car.t) : validation :=
  let issues := [] in
  let issues := push_if (not_ (Car.yearStart car)) "Missing start year" issues in
  let issues := push_if (not_ (Car.yearEnd car)) "Missing end year" issues in
  {| isComplete := Nat.eqb (length issues) 0;
     issues := issues;
     completeness :=
       if Nat.eqb (length issues) 0 then ofZ 100
       else if negb (not_ (Car.yearStart car)) && not_ (Car.yearEnd car) then ofZ 50
       else if not_ (Car.yearStart car) && negb (not_ (Car.yearEnd car)) then ofZ 50
       else ofZ 0 |}.

Record stats := Stats {
  total : Z;
  complete : Z;
  incomplete : Z;
  percentage : float
}.

(** [calculateStats(tableName)]; [None] is the [null] of the default case. *)
Definition calculateStats (tableName : string) : js (option stats) :=
  let count {A : Type} (validateFn : A → validation) (items : list A) : option stats :=
    let total := Z.of_nat (length items) in
    let complete :=
      Z.of_nat (length (List.filter (λ item, isComplete (validateFn item)) items)) in
    let incomplete := total - complete in
    let percentage :=
      if 0 <? total
      then Math_round (PrimFloat.mul (PrimFloat.div (ofZ complete) (ofZ total)) (ofZ 100))
      else ofZ 0 in
    Some (Stats total complete incomplete percentage) in
  if String.eqb tableName "cellModels" then
    items ← cellModels.list_; mret (count validateCellModel items)
  else if String.eqb tableName "batteryPacks" then
    items ← batteryPacks.list_; mret (count validateBatteryPack items)
  else if String.eqb tableName "cars" then
    items ← cars.list_; mret (count validateCar items)
  else mret None.

(** * Basic facts *)

Section Values.

Lemma Qeq_bool_inject_Z (a b : Z) : Qeq_bool (inject_Z a) (inject_Z b) = (a =? b).
Proof.
  unfold Qeq_bool, inject_Z; simpl. now rewrite !Z.mul_1_r.
Qed.

Lemma id_is_num (a b : Z) : id_is a (num b) = (a =? b).
Proof. apply Qeq_bool_inject_Z. Qed.

Lemma id_is_self (a : Z) : id_is a (num a) = true.
Proof. rewrite id_is_num; apply Z.eqb_refl. Qed.

(** A value that is [===] to an identifier is a finite number. *)
Lemma id_is_inv (i : Z) (v : field) :
  id_is i v = true → ∃ q, v = Some (VNum (Fin q)) ∧ Qeq_bool (inject_Z i) q = true.
Proof.
  unfold id_is, num; simpl.
  destruct v as [[| |[]|]|]; try discriminate.
  intros H; eauto.
Qed.

(** Two values that are [===] to the same identifier are [===]. *)
Lemma id_is_euclid (i : Z) (a b : field) :
  id_is i a = true → id_is i b = true → strict_eq a b = true.
Proof.
  intros (p & -> & Hp)%id_is_inv (q & -> & Hq)%id_is_inv; simpl.
  apply Qeq_bool_iff in Hp, Hq. apply Qeq_bool_iff.
  rewrite <- Hp, <- Hq. reflexivity.
Qed.

Lemma json_idem (v : field) : json (json v) = json v.
Proof. destruct v as [[| |[]|]|]; reflexivity. Qed.

(** A value that is an identifier survives the trip through JSON. *)
Lemma json_id_is (i : Z) (v : field) : id_is i v = true → json v = v.
Proof. intros (q & -> & _)%id_is_inv; reflexivity. Qed.

Lemma resolves_json (fk : field) (targets : list Z) :
  resolves fk targets = true → resolves (json fk) targets = true.
Proof. destruct fk as [[| |[]|]|]; simpl; auto. Qed.

End Values.

(** * Tables and identifiers *)

Section Tables.
Context {tbl : TABLES}.
Implicit Types (items : list (row tbl)) (r : row tbl).

Lemma row_id_stringify_parse r : row_id (stringify_parse r) = row_id r.
Proof. destruct tbl; reflexivity. Qed.

Lemma stringify_parse_idem r : stringify_parse (stringify_parse r) = stringify_parse r.
Proof.
  destruct tbl; destruct r; simpl;
    unfold CellModel.stringify_parse, BatteryPack.stringify_parse,
      Car.stringify_parse, CarBatteryPack.stringify_parse; simpl;
    rewrite ?json_idem; reflexivity.
Qed.

Lemma map_row_id_stringify_parse items :
  map row_id (map stringify_parse items) = map row_id items.
Proof.
  rewrite map_map. apply map_ext; intros; apply row_id_stringify_parse.
Qed.

End Tables.

Section Storage.

Lemma table_storeItem_eq tbl v ls : table tbl (storeItem tbl (Some v) ls) = v.
Proof. destruct tbl; reflexivity. Qed.

Lemma table_storeItem_ne tbl tbl' v ls :
  tbl ≠ tbl' → table tbl' (storeItem tbl v ls) = table tbl' ls.
Proof. destruct tbl, tbl'; intros H; try reflexivity; contradiction. Qed.

Lemma getTable_eq tbl w : getTable tbl w = (Return (table tbl (storage w)), w).
Proof. reflexivity. Qed.

Lemma existsb_map {A B : Type} (f : A → B) (p : B → bool) (l : list A) :
  existsb p (map f l) = existsb (λ a, p (f a)) l.
Proof. induction l as [|a l IH]; simpl; [reflexivity | now rewrite IH]. Qed.

Lemma validateFK_eq fk tbl w :
  validateFK fk tbl w = (Return (resolves fk (ids tbl (storage w))), w).
Proof.
  unfold resolves, ids.
  destruct fk as [[| | |]|]; try reflexivity;
    rewrite existsb_map; reflexivity.
Qed.

Lemma resolves_incl fk (l l' : list Z) :
  (∀ i, In i l → In i l') → resolves fk l = true → resolves fk l' = true.
Proof.
  intros Hincl. unfold resolves.
  destruct fk as [[| | |]|]; auto;
    rewrite !existsb_exists; intros (i & Hi & Hfk); eauto.
Qed.

(** A key that resolves keeps resolving when the target loses the records
    whose identifier is [id], provided the key itself is not [id]. *)
Lemma resolves_filter fk id (l : list Z) :
  resolves fk l = true →
  strict_eq fk id = false →
  resolves fk (List.filter (λ i, negb (id_is i id)) l) = true.
Proof.
  intros Hres Hne.
  assert (Hkeep : ∀ i, In i l → id_is i fk = true →
            In i (List.filter (λ i, negb (id_is i id)) l)).
  { intros i Hi Hfk. apply filter_In; split; [assumption|].
    destruct (id_is i id) eqn:E; [|reflexivity].
    rewrite (id_is_euclid i _ id Hfk E) in Hne; discriminate. }
  revert Hres. unfold resolves.
  destruct fk as [[| | |]|]; auto;
    rewrite !existsb_exists; intros (i & Hi & Hfk); eauto.
Qed.

End Storage.

(** * What each operation does to the storage *)

Section Effects.

(** The guard of [update] on a foreign key: checked only when supplied. *)
Lemma update_check_eq (d : field) tbl w :
  match d with Some _ => validateFK d tbl | None => mret true end w
  = (Return (resolves d (ids tbl (storage w))), w).
Proof. destruct d; [apply validateFK_eq | reflexivity]. Qed.

Lemma resolves_or_else_null (d : field) l :
  resolves d l = true → resolves (or_else d null) l = true.
Proof. destruct d as [v|]; simpl; [destruct (truthy v)|]; auto. Qed.

Lemma resolves_if_defined (d old : field) l :
  resolves d l = true → d = None ∨ resolves (if_defined d old) l = true.
Proof. destruct d; simpl; auto. Qed.

Lemma create_effect tbl x w :
  (∃ e, T.create tbl x w = (Throw e, w)) ∨
  (∃ r, T.create tbl x w = (Return r, saved tbl (table tbl (storage w) ++ [r]) w)
        ∧ row_id r = nextId (ids tbl (storage w))
        ∧ ∀ fk target, In (fk, target) (fks r) →
            resolves fk (ids target (storage w)) = true).
Proof.
  destruct tbl; simpl.
  - right. unfold cellModels.create; cbn.
    eexists; split; [reflexivity|]. split; [reflexivity|]. intros ? ? [].
  - unfold batteryPacks.create, mbind, js_bind. rewrite validateFK_eq.
    destruct (resolves _ _) eqn:Hok; cbn; [right | left; eauto].
    eexists; split; [reflexivity|]. split; [reflexivity|].
    intros fk target [[= <- <-]|[]]. now apply resolves_or_else_null.
  - right. unfold cars.create; cbn.
    eexists; split; [reflexivity|]. split; [reflexivity|]. intros ? ? [].
  - unfold carBatteryPacks.create, mbind, js_bind. rewrite validateFK_eq.
    destruct (resolves _ _) eqn:Hcar; cbn [negb]; [| left; eauto].
    rewrite validateFK_eq.
    destruct (resolves (x !! "batteryPackId") _) eqn:Hpack; cbn; [right | left; eauto].
    eexists; split; [reflexivity|]. split; [reflexivity|].
    intros fk target [[= <- <-]|[[= <- <-]|[]]]; assumption.
Qed.

Ltac frame_attributes :=
  let k := fresh "k" in
  let Hk := fresh "Hk" in
  intros k Hk; cbn;
  repeat match goal with
    | |- context [String.eqb k ?s] =>
        destruct (String.eqb_spec k s);
        [subst k; try rewrite Hk; reflexivity|]
    end;
  reflexivity.

Lemma update_effect tbl id x w :
  (∃ e, T.update tbl id x w = (Throw e, w)) ∨
  (∃ n old new,
      findIndex (λ item, id_is (row_id item) id) (table tbl (storage w)) = Some (n, old)
      ∧ T.update tbl id x w = (Return new, saved tbl (<[n:=new]> (table tbl (storage w))) w)
      ∧ row_id new = row_id old
      ∧ (∀ k, x !! k = None → attribute new k = attribute old k)
      ∧ (∀ fk target, In (fk, target) (fks new) →
           resolves fk (ids target (storage w)) = true ∨ In (fk, target) (fks old))).
Proof.
  destruct tbl; simpl.
  - unfold cellModels.update, mbind, js_bind, cellModels.list_.
    rewrite getTable_eq.
    destruct (findIndex _ _) as [[n old]|] eqn:Hfind; [right | left; eauto].
    exists n, old. eexists. split; [reflexivity|].
    split; [reflexivity|]. split; [reflexivity|].
    split; [frame_attributes | intros ? ? []].
  - unfold batteryPacks.update, mbind, js_bind, batteryPacks.list_.
    rewrite update_check_eq.
    destruct (resolves _ _) eqn:Hok; cbn [negb]; [| left; eauto].
    rewrite getTable_eq.
    destruct (findIndex _ _) as [[n old]|] eqn:Hfind; [right | left; eauto].
    exists n, old. eexists. split; [reflexivity|].
    split; [reflexivity|]. split; [reflexivity|].
    split; [frame_attributes |].
    intros fk target [[= <- <-]|[]]; cbn.
    destruct (resolves_if_defined _ (BatteryPack.cellModelId old) _ Hok) as [->|]; auto.
  - unfold cars.update, mbind, js_bind, cars.list_.
    rewrite getTable_eq.
    destruct (findIndex _ _) as [[n old]|] eqn:Hfind; [right | left; eauto].
    exists n, old. eexists. split; [reflexivity|].
    split; [reflexivity|]. split; [reflexivity|].
    split; [frame_attributes | intros ? ? []].
  - unfold carBatteryPacks.update, mbind, js_bind, carBatteryPacks.list_.
    rewrite update_check_eq.
    destruct (resolves _ _) eqn:Hcar; cbn [negb]; [| left; eauto].
    rewrite update_check_eq.
    destruct (resolves (x !! "batteryPackId") _) eqn:Hpack; cbn [negb]; [| left; eauto].
    rewrite getTable_eq.
    destruct (findIndex _ _) as [[n old]|] eqn:Hfind; [right | left; eauto].
    exists n, old. eexists. split; [reflexivity|].
    split; [reflexivity|]. split; [reflexivity|].
    split; [frame_attributes |].
    intros fk target [[= <- <-]|[[= <- <-]|[]]]; cbn.
    + destruct (resolves_if_defined _ (CarBatteryPack.carId old) _ Hcar) as [->|]; auto.
    + destruct (resolves_if_defined _ (CarBatteryPack.batteryPackId old) _ Hpack)
        as [->|]; auto.
Qed.

Lemma remove_effect tbl id w :
  (∃ e, T.remove tbl id w = (Throw e, w)) ∨
  (T.remove tbl id w = (Return true, saved tbl (others tbl id (table tbl (storage w))) w)
   ∧ length (others tbl id (table tbl (storage w))) ≠ length (table tbl (storage w))
   ∧ ∀ tbl' (r : row tbl') fk,
       In r (table tbl' (storage w)) → In (fk, tbl) (fks r) → strict_eq fk id = false).
Proof.
  destruct tbl; simpl.
  - unfold cellModels.remove, mbind, js_bind, batteryPacks.list_, cellModels.list_.
    rewrite getTable_eq.
    destruct (existsb _ _) eqn:Hguard; [left; eauto|].
    rewrite getTable_eq.
    destruct (Nat.eqb _ _) eqn:Hlen; [left; eauto | right].
    split; [reflexivity|]. split; [now apply Nat.eqb_neq|].
    intros tbl' r fk Hr Hfk.
    destruct tbl'; simpl in Hfk; try (destruct Hfk as [[=]|[[=]|[]]]; fail);
      try (destruct Hfk; fail).
    destruct Hfk as [[= <-]|[]].
    destruct (strict_eq _ _) eqn:E; [|reflexivity].
    rewrite <- Hguard. symmetry. apply existsb_exists. eauto.
  - unfold batteryPacks.remove, mbind, js_bind, carBatteryPacks.list_, batteryPacks.list_.
    rewrite getTable_eq.
    destruct (existsb _ _) eqn:Hguard; [left; eauto|].
    rewrite getTable_eq.
    destruct (Nat.eqb _ _) eqn:Hlen; [left; eauto | right].
    split; [reflexivity|]. split; [now apply Nat.eqb_neq|].
    intros tbl' r fk Hr Hfk.
    destruct tbl'; simpl in Hfk; try (destruct Hfk as [[=]|[]]; fail);
      try (destruct Hfk; fail).
    destruct Hfk as [[=]|[[= <-]|[]]].
    destruct (strict_eq _ _) eqn:E; [|reflexivity].
    rewrite <- Hguard. symmetry. apply existsb_exists. eauto.
  - unfold cars.remove, mbind, js_bind, carBatteryPacks.list_, cars.list_.
    rewrite getTable_eq.
    destruct (existsb _ _) eqn:Hguard; [left; eauto|].
    rewrite getTable_eq.
    destruct (Nat.eqb _ _) eqn:Hlen; [left; eauto | right].
    split; [reflexivity|]. split; [now apply Nat.eqb_neq|].
    intros tbl' r fk Hr Hfk.
    destruct tbl'; simpl in Hfk; try (destruct Hfk as [[=]|[]]; fail);
      try (destruct Hfk; fail).
    destruct Hfk as [[= <-]|[[=]|[]]].
    destruct (strict_eq _ _) eqn:E; [|reflexivity].
    rewrite <- Hguard. symmetry. apply existsb_exists. eauto.
  - unfold carBatteryPacks.remove, mbind, js_bind, carBatteryPacks.list_.
    rewrite getTable_eq.
    destruct (Nat.eqb _ _) eqn:Hlen; [left; eauto | right].
    split; [reflexivity|]. split; [now apply Nat.eqb_neq|].
    intros tbl' r fk Hr Hfk.
    destruct tbl'; simpl in Hfk; try (destruct Hfk as [[=]|[[=]|[]]]; fail);
      try (destruct Hfk as [[=]|[]]; fail); try (destruct Hfk; fail).
Qed.

End Effects.

(** * Referential integrity *)

Section Integrity.

Lemma resolves_refers_to fk target ls :
  resolves fk (ids target ls) = true → refers_to fk target ls.
Proof.
  intros H v -> Hv. unfold resolves, ids in H.
  rewrite existsb_map in H.
  destruct v; try contradiction;
    apply existsb_exists in H as (r & Hr & Hid); eauto.
Qed.

Lemma fks_not_self {tbl} (r : row tbl) fk : ¬ In (fk, tbl) (fks r).
Proof.
  destruct tbl; simpl; intros H;
    repeat (destruct H as [[=]|H]); try contradiction.
Qed.

Lemma fks_stringify_parse {tbl} (r : row tbl) fk target :
  In (fk, target) (fks (stringify_parse r)) →
  ∃ fk0, fk = json fk0 ∧ In (fk0, target) (fks r).
Proof.
  destruct tbl; simpl; intros H;
    repeat (destruct H as [[= <- <-]|H]; [eexists; split; [reflexivity|simpl; auto]|]);
    contradiction.
Qed.

Lemma ids_storeItem_eq tbl data ls :
  ids tbl (storeItem tbl (Some (map stringify_parse data)) ls) = map row_id data.
Proof. unfold ids. rewrite table_storeItem_eq. apply map_row_id_stringify_parse. Qed.

Lemma ids_storeItem_ne tbl tbl' v ls :
  tbl ≠ tbl' → ids tbl' (storeItem tbl v ls) = ids tbl' ls.
Proof. intros H. unfold ids. now rewrite table_storeItem_ne. Qed.

(** Writing [data] to [tbl] keeps referential integrity when the keys of
    [data] resolve and the keys that point into [tbl] still do. *)
Lemma integrity_saved tbl (data : list (row tbl)) ls :
  referential_integrity ls →
  (∀ r, In r data → ∀ fk target, In (fk, target) (fks r) →
     resolves fk (ids target ls) = true) →
  (∀ tbl' (r : row tbl') fk, In r (table tbl' ls) → In (fk, tbl) (fks r) →
     resolves fk (map row_id data) = true) →
  referential_integrity (storeItem tbl (Some (map stringify_parse data)) ls).
Proof.
  intros HRI Hdata Hinto tbl' r Hr fk target Hfk.
  destruct (decide (tbl = tbl')) as [<-|Hne].
  - rewrite table_storeItem_eq in Hr.
    apply in_map_iff in Hr as (r0 & <- & Hr0).
    apply fks_stringify_parse in Hfk as (fk0 & -> & Hfk0).
    apply resolves_json.
    rewrite ids_storeItem_ne.
    + eapply Hdata; eassumption.
    + intros ->. exact (fks_not_self _ _ Hfk0).
  - rewrite table_storeItem_ne in Hr by assumption.
    destruct (decide (tbl = target)) as [<-|Hne'].
    + rewrite ids_storeItem_eq. eapply Hinto; eassumption.
    + rewrite ids_storeItem_ne by assumption. eapply HRI; eassumption.
Qed.

Lemma In_insert {A} (l : list A) n (x y : A) :
  In y (<[n:=x]> l) → y = x ∨ In y l.
Proof.
  revert n; induction l as [|a l IH]; intros [|n]; simpl; auto.
  - intros [<-|H]; auto.
  - intros [<-|H]; auto. destruct (IH _ H); auto.
Qed.

Lemma map_insert_same {A B} (f : A → B) (l : list A) n (x old : A) :
  l !! n = Some old → f x = f old → map f (<[n:=x]> l) = map f l.
Proof.
  revert n; induction l as [|a l IH]; intros [|n]; simpl; try discriminate.
  - intros [= ->] ->. reflexivity.
  - intros H Hf. f_equal. now apply IH.
Qed.

Lemma findIndex_Some {A} (p : A → bool) (l : list A) n x :
  findIndex p l = Some (n, x) →
  l !! n = Some x ∧ p x = true ∧ ∀ j y, l !! j = Some y → (j < n)%nat → p y = false.
Proof.
  unfold findIndex. intros (Hn & Hp & Hfirst)%list_find_Some.
  repeat split; try assumption.
  intros j y Hj Hlt. specialize (Hfirst j y Hj Hlt).
  destruct (p y); [contradiction | reflexivity].
Qed.

Lemma findIndex_None {A} (p : A → bool) (l : list A) :
  findIndex p l = None ↔ ∀ x, In x l → p x = false.
Proof.
  unfold findIndex. rewrite list_find_None, Forall_forall.
  split; intros H x Hx.
  - apply list_elem_of_In, H in Hx. destruct (p x); [contradiction|reflexivity].
  - apply list_elem_of_In, H in Hx. rewrite Hx. discriminate.
Qed.

Lemma lookup_In {A} (l : list A) n x : l !! n = Some x → In x l.
Proof. intros H. apply list_elem_of_In, list_elem_of_lookup. eauto. Qed.

Lemma storage_saved tbl data w :
  storage (saved tbl data w) = storeItem tbl (Some (map stringify_parse data)) (storage w).
Proof. reflexivity. Qed.

Lemma integrity_create tbl x w :
  referential_integrity (storage w) →
  referential_integrity (storage (snd (T.create tbl x w))).
Proof.
  intros HRI.
  destruct (create_effect tbl x w) as [[e ->]|(r & -> & Hid & Hfks)]; [assumption|].
  simpl snd. rewrite storage_saved. apply integrity_saved; [assumption| |].
  - intros r0 [Hr0| [<-|[]]]%in_app_or; [eapply HRI; eassumption | exact Hfks].
  - intros tbl' r0 fk Hr0 Hfk. rewrite map_app.
    eapply resolves_incl; [|eapply HRI; eassumption].
    intros i Hi. apply in_or_app; left; assumption.
Qed.

Lemma integrity_update tbl id x w :
  referential_integrity (storage w) →
  referential_integrity (storage (snd (T.update tbl id x w))).
Proof.
  intros HRI.
  destruct (update_effect tbl id x w)
    as [[e ->]|(n & old & new & Hfind & -> & Hid & _ & Hfks)]; [assumption|].
  apply findIndex_Some in Hfind as (Hn & _ & _).
  simpl snd. rewrite storage_saved. apply integrity_saved; [assumption| |].
  - intros r0 [->|Hr0]%In_insert; [|eapply HRI; eassumption].
    intros fk target [Hres|Hold]%Hfks; [assumption|].
    eapply HRI; [eapply lookup_In|]; eassumption.
  - intros tbl' r0 fk Hr0 Hfk.
    rewrite (map_insert_same row_id _ _ _ _ Hn Hid).
    eapply HRI; eassumption.
Qed.

Lemma integrity_remove tbl id w :
  referential_integrity (storage w) →
  referential_integrity (storage (snd (T.remove tbl id w))).
Proof.
  intros HRI.
  destruct (remove_effect tbl id w) as [[e ->]|(-> & _ & Hguard)]; [assumption|].
  simpl snd. rewrite storage_saved. apply integrity_saved; [assumption| |].
  - intros r0 [Hr0 _]%filter_In. eapply HRI; eassumption.
  - intros tbl' r0 fk Hr0 Hfk. unfold others.
    assert (Hmap : ∀ l : list (row tbl),
               map row_id (List.filter (λ item, negb (id_is (row_id item) id)) l)
               = List.filter (λ i, negb (id_is i id)) (map row_id l)).
    { induction l as [|a l IH]; simpl; [reflexivity|].
      destruct (negb _); simpl; now rewrite IH. }
    rewrite Hmap. apply resolves_filter.
    + eapply HRI; eassumption.
    + eapply Hguard; eassumption.
Qed.

Lemma snd_bind_ret {A} (m : js A) w : snd ((m ;; mret ()) w) = snd (m w).
Proof. unfold mbind, js_bind. destruct (m w) as [[a|e] w']; reflexivity. Qed.

End Integrity.

(** * Identifiers *)

Section Identifiers.

Lemma Math_max_max0 (x : Z) (xs : list Z) :
  0 ≤ x → Math_max x xs = Z.max x (max0 xs).
Proof.
  unfold Math_max. revert x; induction xs as [|a xs IH]; intros x Hx; simpl.
  - lia.
  - rewrite IH by lia. lia.
Qed.

Lemma Math_max_ge (x : Z) (xs : list Z) : ∀ i, In i (x :: xs) → i ≤ Math_max x xs.
Proof.
  unfold Math_max. revert x; induction xs as [|a xs IH]; intros x i; simpl.
  - intros [->|[]]; lia.
  - intros [->|[->|H]].
    + specialize (IH (Z.max i a) (Z.max i a) (or_introl eq_refl)). lia.
    + specialize (IH (Z.max x i) (Z.max x i) (or_introl eq_refl)). lia.
    + apply IH. right; assumption.
Qed.

(** The next identifier is above every identifier in use. *)
Lemma nextId_fresh (l : list Z) : ∀ i, In i l → i < nextId l.
Proof.
  destruct l as [|x xs]; [contradiction|].
  intros i Hi. apply Math_max_ge in Hi. simpl. lia.
Qed.

Lemma nextId_max0 (l : list Z) : Forall (λ i, 0 < i) l → nextId l = max0 l + 1.
Proof.
  destruct l as [|x xs]; [reflexivity|].
  intros Hpos. apply Forall_inv in Hpos. simpl.
  rewrite Math_max_max0 by lia. reflexivity.
Qed.

Lemma nextId_pos (l : list Z) : Forall (λ i, 0 < i) l → 0 < nextId l.
Proof.
  destruct l as [|x xs]; [reflexivity|].
  intros Hpos. apply Forall_inv in Hpos.
  pose proof (Math_max_ge x xs x (or_introl eq_refl)). simpl. lia.
Qed.

End Identifiers.

(** * Well-formed storage *)

Section WellFormed.

Lemma well_formed_saved tbl (data : list (row tbl)) ls :
  well_formed ls →
  NoDup (map row_id data) →
  Forall (λ i, 0 < i) (map row_id data) →
  well_formed (storeItem tbl (Some (map stringify_parse data)) ls).
Proof.
  intros [Hclean Hids] Hnodup Hpos. split.
  - intros tbl' r Hr. destruct (decide (tbl = tbl')) as [<-|Hne].
    + rewrite table_storeItem_eq in Hr.
      apply in_map_iff in Hr as (r0 & <- & _). apply stringify_parse_idem.
    + rewrite table_storeItem_ne in Hr by assumption. now apply Hclean.
  - intros tbl'. destruct (decide (tbl = tbl')) as [<-|Hne].
    + rewrite ids_storeItem_eq. split; assumption.
    + rewrite ids_storeItem_ne by assumption. apply Hids.
Qed.

Lemma ids_others tbl id (items : list (row tbl)) :
  map row_id (others tbl id items)
  = List.filter (λ i, negb (id_is i id)) (map row_id items).
Proof.
  unfold others. induction items as [|a l IH]; simpl; [reflexivity|].
  destruct (negb _); simpl; now rewrite IH.
Qed.

Lemma well_formed_create tbl x w :
  well_formed (storage w) → well_formed (storage (snd (T.create tbl x w))).
Proof.
  intros Hwf.
  destruct (create_effect tbl x w) as [[e ->]|(r & -> & Hid & _)]; [assumption|].
  simpl snd. rewrite storage_saved.
  destruct Hwf as [Hclean Hids]. destruct (Hids tbl) as [Hnodup Hpos].
  apply well_formed_saved; [split; assumption| |]; rewrite map_app; simpl; rewrite Hid.
  - apply NoDup_app. split; [assumption|]. split; [|apply NoDup_singleton].
    intros i Hi%list_elem_of_In%nextId_fresh Heq%list_elem_of_singleton.
    fold (ids tbl (storage w)) in Hi. lia.
  - apply Forall_app. split; [assumption|].
    constructor; [|constructor]. now apply nextId_pos.
Qed.

Lemma well_formed_update tbl id x w :
  well_formed (storage w) → well_formed (storage (snd (T.update tbl id x w))).
Proof.
  intros Hwf.
  destruct (update_effect tbl id x w)
    as [[e ->]|(n & old & new & Hfind & -> & Hid & _)]; [assumption|].
  apply findIndex_Some in Hfind as (Hn & _ & _).
  simpl snd. rewrite storage_saved.
  destruct Hwf as [Hclean Hids]. destruct (Hids tbl) as [Hnodup Hpos].
  apply well_formed_saved; [split; assumption| |];
    rewrite (map_insert_same row_id _ _ _ _ Hn Hid); assumption.
Qed.

Lemma well_formed_remove tbl id w :
  well_formed (storage w) → well_formed (storage (snd (T.remove tbl id w))).
Proof.
  intros Hwf.
  destruct (remove_effect tbl id w) as [[e ->]|(-> & _)]; [assumption|].
  simpl snd. rewrite storage_saved.
  destruct Hwf as [Hclean Hids]. destruct (Hids tbl) as [Hnodup Hpos].
  apply well_formed_saved; [split; assumption| |]; rewrite ids_others.
  - apply NoDup_ListNoDup, List.NoDup_filter, NoDup_ListNoDup, Hnodup.
  - rewrite Forall_forall in Hpos |- *.
    intros i [Hi _]%list_elem_of_In%filter_In. now apply Hpos, list_elem_of_In.
Qed.

End WellFormed.

(** * Invariants of the reachable states *)

Section Invariants.

Lemma preserves_ret P {A} (a : A) : preserves P (mret a).
Proof. intros w H; exact H. Qed.

Lemma preserves_bind P {A B} (m : js A) (f : A → js B) :
  preserves P m → (∀ a, preserves P (f a)) → preserves P (m ≫= f).
Proof.
  intros Hm Hf w H. specialize (Hm w H).
  unfold mbind, js_bind. destruct (m w) as [[a|e] w']; simpl in *; [|assumption].
  now apply Hf.
Qed.

Lemma preserves_forEach P {A B} (f : A → js B) (xs : list A) :
  (∀ a, preserves P (f a)) → preserves P (forEach f xs).
Proof.
  intros Hf. induction xs as [|x xs IH]; simpl.
  - apply preserves_ret.
  - apply preserves_bind; [apply Hf | intros _; exact IH].
Qed.

Lemma consistent_create tbl x : preserves consistent (T.create tbl x).
Proof.
  intros w [HRI Hwf]. split; [now apply integrity_create | now apply well_formed_create].
Qed.

Lemma consistent_update tbl id x : preserves consistent (T.update tbl id x).
Proof.
  intros w [HRI Hwf]. split; [now apply integrity_update | now apply well_formed_update].
Qed.

Lemma consistent_remove tbl id : preserves consistent (T.remove tbl id).
Proof.
  intros w [HRI Hwf]. split; [now apply integrity_remove | now apply well_formed_remove].
Qed.

Lemma consistent_perform op : preserves consistent (perform op).
Proof.
  destruct op; simpl; (apply preserves_bind; [|intros; apply preserves_ret]).
  - apply consistent_create.
  - apply consistent_update.
  - apply consistent_remove.
Qed.

Lemma consistent_empty : consistent emptyStorage.
Proof.
  split; [|split].
  - intros tbl r Hr. destruct tbl; destruct Hr.
  - intros tbl r Hr. destruct tbl; destruct Hr.
  - intros tbl. destruct tbl; split; constructor.
Qed.

Lemma consistent_loadInitialData : preserves consistent DB.loadInitialData.
Proof.
  unfold DB.loadInitialData.
  apply preserves_bind; [|intros _; apply preserves_bind;
                          [|intros _; apply preserves_bind; [|intros _]]].
  - apply preserves_forEach, (consistent_create cellModels_).
  - apply preserves_forEach, (consistent_create cars_).
  - apply preserves_forEach, (consistent_create batteryPacks_).
  - apply preserves_forEach, (consistent_create carBatteryPacks_).
Qed.

Lemma consistent_seeded : consistent (storage seededWorld).
Proof. apply consistent_loadInitialData, consistent_empty. Qed.

Lemma reachable_consistent w : reachable w → consistent (storage w).
Proof.
  induction 1 as [| |op w _ IH].
  - apply consistent_empty.
  - apply consistent_seeded.
  - now apply consistent_perform.
Qed.

End Invariants.

(** * Create, then get *)

Section CreateGet.

Lemma find_fresh {tbl} (items : list (row tbl)) (r : row tbl) :
  (∀ i, In i (map row_id items) → i < row_id r) →
  List.find (λ item, id_is (row_id item) (num (row_id r)))
            (map stringify_parse (items ++ [r]))
  = Some (stringify_parse r).
Proof.
  intros Hfresh. induction items as [|a items IH]; simpl.
  - now rewrite row_id_stringify_parse, id_is_self.
  - rewrite row_id_stringify_parse, id_is_num.
    destruct (Z.eqb_spec (row_id a) (row_id r)) as [Heq|_].
    + specialize (Hfresh (row_id a) (or_introl eq_refl)). lia.
    + apply IH. intros i Hi. apply Hfresh. right; assumption.
Qed.

(** A field built with [||] and sent through JSON is the supplied field
    when its value is truthy, and the default otherwise. *)
Lemma json_or_else (x : object) (k : string) (default : field) :
  json default = default →
  json (or_else (x !! k) default) = supplied (carried x) k default.
Proof.
  intros Hd. unfold supplied, carried, or_else.
  rewrite lookup_fmap.
  destruct (x !! k) as [v|] eqn:Hk.
  - destruct (truthy v) eqn:Hv.
    + erewrite (proj2 (map_lookup_filter_Some _ x k v)); [reflexivity|].
      split; assumption.
    + rewrite (proj2 (map_lookup_filter_None _ x k)); [exact Hd|].
      right. intros v' Hk'. rewrite Hk in Hk'. injection Hk' as <-.
      simpl. rewrite Hv. discriminate.
  - rewrite (proj2 (map_lookup_filter_None _ x k)); [exact Hd|].
    left; assumption.
Qed.

Lemma json_resolved (fk : field) (targets : list Z) :
  resolves fk targets = true → json fk = fk.
Proof.
  destruct fk as [[| | |]|]; try reflexivity; simpl;
    intros (i & _ & Hi)%existsb_exists; exact (json_id_is i _ Hi).
Qed.

Lemma get_eq tbl id w :
  T.get tbl id w
  = (Return (List.find (λ item, id_is (row_id item) id) (table tbl (storage w))), w).
Proof. destruct tbl; reflexivity. Qed.

Lemma create_stored tbl x w :
  keys_resolve tbl x (storage w) = true →
  ∃ r, T.create tbl x w = (Return r, saved tbl (table tbl (storage w) ++ [r]) w)
       ∧ row_id r = nextId (ids tbl (storage w))
       ∧ stringify_parse r = expected tbl (row_id r) x.
Proof.
  destruct tbl; simpl; intros Hres.
  - eexists. split; [unfold cellModels.create; cbn; reflexivity|].
    split; [reflexivity|].
    unfold CellModel.stringify_parse; simpl.
    now rewrite !json_or_else.
  - unfold batteryPacks.create, mbind, js_bind. rewrite validateFK_eq, Hres.
    eexists. split; [cbn; reflexivity|]. split; [reflexivity|].
    unfold BatteryPack.stringify_parse; simpl.
    now rewrite !json_or_else.
  - eexists. split; [unfold cars.create; cbn; reflexivity|].
    split; [reflexivity|].
    unfold Car.stringify_parse; simpl.
    now rewrite !json_or_else.
  - apply andb_true_iff in Hres as [Hcar Hpack].
    unfold carBatteryPacks.create, mbind, js_bind.
    rewrite validateFK_eq, Hcar; cbn [negb]. rewrite validateFK_eq, Hpack.
    eexists. split; [cbn; reflexivity|]. split; [reflexivity|].
    unfold CarBatteryPack.stringify_parse; simpl.
    now rewrite (json_resolved _ _ Hcar), (json_resolved _ _ Hpack).
Qed.

End CreateGet.

(** C1, as the code has it.  In every reachable state, for every table and
    every input whose supplied foreign keys resolve, [create] returns a
    record, and [get] on its identifier yields the record that holds this identifier and the merge of
    the defaults of the table with the supplied fields whose value is
    truthy, as JSON carries them.  A supplied [0], [""], [false], [null] or
    [NaN] is replaced by the default of its field.  The junction table has no
    defaults: its two keys are read back as supplied, absent when absent. *)
Theorem create_then_get (tbl : TABLES) (x : object) (w : world) :
  reachable w →
  keys_resolve tbl x (storage w) = true →
  ∃ r w', T.create tbl x w = (Return r, w')
          ∧ T.get tbl (num (row_id r)) w'
            = (Return (Some (expected tbl (row_id r) x)), w').
Proof.
  intros _ Hres.
  destruct (create_stored tbl x w Hres) as (r & Hcreate & Hid & Hsp).
  exists r. eexists. split; [exact Hcreate|].
  rewrite get_eq, storage_saved, table_storeItem_eq, find_fresh, Hsp; [reflexivity|].
  intros i Hi. rewrite Hid. now apply nextId_fresh.
Qed.

Lemma create_then_get_witness :
  let x := obj [("name", VStr "Spare pack"); ("cellCount", int 0); ("cellModelId", int 3)] in
  keys_resolve batteryPacks_ x (storage seededWorld) = true
  ∧ ∃ r w', T.create batteryPacks_ x seededWorld = (Return r, w')
            ∧ T.get batteryPacks_ (num (row_id r)) w'
              = (Return (Some (expected batteryPacks_ (row_id r) x)), w').
Proof.
  split; [vm_compute; reflexivity|].
  apply create_then_get; [exact reachable_seeded|vm_compute; reflexivity].
Defined.

(** C1, as stated, fails on a supplied zero: [cellModels.create] of
    [{nominalVoltage: 0}] on the empty storage stores [null] where the merge
    of defaults and supplied fields has [0]. *)
Lemma create_zero_not_merged :
  let x := obj [("nominalVoltage", int 0)] in
  ∃ r w' r',
    T.create cellModels_ x emptyWorld = (Return r, w')
    ∧ T.get cellModels_ (num (row_id r)) w' = (Return (Some r'), w')
    ∧ CellModel.nominalVoltage r' = null
    ∧ CellModel.nominalVoltage (merged cellModels_ (row_id r) x) = Some (int 0)
    ∧ r' ≠ merged cellModels_ (row_id r) x.
Proof.
  do 3 eexists.
  split; [vm_compute; reflexivity|].
  split; [vm_compute; reflexivity|].
  split; [reflexivity|].
  split; [vm_compute; reflexivity|].
  vm_compute. discriminate.
Qed.

(** * Foreign keys on create *)

(** C2.  [batteryPacks.create] of an input whose [cellModelId] is [X] throws
    the validation failure, and writes nothing, for every [X] other than null
    that is not the identifier of a cell model; for [X = null] it returns a
    record, and the record it appends to the stored table has
    [cellModelId = null]; in a reachable state this is the record that [get]
    finds under the new identifier. *)
Theorem batteryPacks_create_cellModelId (x : object) (X : value) (w : world) :
  x !! "cellModelId" = Some X →
  (X ≠ VNull →
   (∀ c, In c (table cellModels_ (storage w)) → id_is (CellModel.id c) (Some X) = false) →
   batteryPacks.create x w = (Throw InvalidCellModelId, w)
   ∧ classify InvalidCellModelId = ValidationError)
  ∧ (X = VNull →
     ∃ r w' r', batteryPacks.create x w = (Return r, w')
                ∧ BatteryPack.cellModelId r = null
                ∧ table batteryPacks_ (storage w')
                  = (map (stringify_parse (tbl := batteryPacks_))
                         (table batteryPacks_ (storage w)) ++ [r'])%list
                ∧ BatteryPack.cellModelId r' = null
                ∧ (reachable w →
                   batteryPacks.get (num (BatteryPack.id r)) w'
                   = (Return (Some r'), w'))).
Proof.
  intros HX. split.
  - intros Hnull Hnone. split; [|reflexivity].
    unfold batteryPacks.create, mbind, js_bind. rewrite validateFK_eq, HX.
    replace (resolves (Some X) (ids cellModels_ (storage w))) with false; [reflexivity|].
    symmetry. unfold resolves, ids. rewrite existsb_map.
    assert (Hex : existsb (λ c : row cellModels_, id_is (row_id c) (Some X))
                    (table cellModels_ (storage w)) = false).
    { destruct (existsb _ _) eqn:E; [|reflexivity].
      apply existsb_exists in E as (c & Hc & Hid).
      specialize (Hnone c Hc). unfold row_id in Hid. congruence. }
    destruct X; try assumption. contradiction.
  - intros ->.
    assert (Hres : keys_resolve batteryPacks_ x (storage w) = true)
      by (simpl; rewrite HX; reflexivity).
    destruct (create_stored batteryPacks_ x w Hres) as (r & Hcreate & Hid & Hsp).
    simpl in Hcreate.
    exists r, (saved batteryPacks_ (table batteryPacks_ (storage w) ++ [r]) w),
      (stringify_parse r).
    split; [exact Hcreate|].
    assert (Hr : BatteryPack.cellModelId r = null).
    { revert Hcreate. unfold batteryPacks.create, mbind, js_bind.
      rewrite validateFK_eq, HX. cbn. intros [= Hr _]. rewrite <- Hr.
      reflexivity. }
    split; [exact Hr|]. split; [|split].
    + rewrite storage_saved, table_storeItem_eq. apply map_app.
    + simpl. now rewrite Hr.
    + intros _.
      change (T.get batteryPacks_ (num (row_id r))
                (saved batteryPacks_ (table batteryPacks_ (storage w) ++ [r]) w)
              = (Return (Some (stringify_parse r)), 
                 saved batteryPacks_ (table batteryPacks_ (storage w) ++ [r]) w)).
      rewrite get_eq, storage_saved, table_storeItem_eq, find_fresh; [reflexivity|].
      intros i Hi. rewrite Hid. now apply nextId_fresh.
Qed.

Lemma batteryPacks_create_cellModelId_witness :
  let x := obj [("name", VStr "Orphan"); ("cellModelId", int 23)] in
  let y := obj [("name", VStr "Loose"); ("cellModelId", VNull)] in
  (batteryPacks.create x seededWorld = (Throw InvalidCellModelId, seededWorld)
   ∧ classify InvalidCellModelId = ValidationError)
  ∧ ∃ r w' r', batteryPacks.create y seededWorld = (Return r, w')
               ∧ BatteryPack.cellModelId r' = null
               ∧ batteryPacks.get (num (BatteryPack.id r)) w' = (Return (Some r'), w').
Proof.
  intros x y. split.
  - refine (proj1 (batteryPacks_create_cellModelId x (int 23) seededWorld _) _ _).
    + vm_compute; reflexivity.
    + discriminate.
    + assert (H : forallb (λ c, negb (id_is (CellModel.id c) (Some (int 23))))
                   (table cellModels_ (storage seededWorld)) = true)
        by (vm_compute; reflexivity).
      intros c Hc. apply negb_true_iff. exact (proj1 (forallb_forall _ _) H c Hc).
  - assert (Hy : y !! "cellModelId" = Some VNull) by (vm_compute; reflexivity).
    destruct (proj2 (batteryPacks_create_cellModelId y VNull seededWorld Hy) eq_refl)
      as (r & w' & r' & Hcreate & _ & _ & Hnull & Hget).
    exists r, w', r'.
    split; [exact Hcreate|]. split; [exact Hnull|].
    exact (Hget reachable_seeded).
Defined.

(** * The guard on delete *)

Section DeleteGuard.

Lemma others_shorter tbl id (items : list (row tbl)) r :
  In r items → id_is (row_id r) id = true →
  length (others tbl id items) ≠ length items.
Proof.
  intros Hr Hid. unfold others.
  assert (Hle : ∀ l : list (row tbl),
             (length (List.filter (λ item, negb (id_is (row_id item) id)) l)
              ≤ length l)%nat).
  { induction l as [|a l IH]; simpl; [lia|]. destruct (negb _); simpl; lia. }
  induction items as [|a items IH]; [destruct Hr|].
  simpl. destruct Hr as [->|Hr].
  - rewrite Hid; simpl. specialize (Hle items). lia.
  - specialize (IH Hr). destruct (negb _); simpl; [lia|].
    specialize (Hle items). lia.
Qed.

(** [remove] goes through when a record has the identifier and no record
    of another table points to it. *)
Lemma remove_succeeds tbl id w r :
  In r (table tbl (storage w)) → id_is (row_id r) id = true →
  (∀ tbl' (r' : row tbl') fk,
      In r' (table tbl' (storage w)) → In (fk, tbl) (fks r') → strict_eq fk id = false) →
  T.remove tbl id w = (Return true, saved tbl (others tbl id (table tbl (storage w))) w).
Proof.
  intros Hr Hid Hfree.
  pose proof (others_shorter tbl id _ r Hr Hid) as Hlen.
  apply Nat.eqb_neq in Hlen.
  destruct tbl; simpl.
  - unfold cellModels.remove, mbind, js_bind, batteryPacks.list_, cellModels.list_.
    rewrite getTable_eq.
    replace (existsb _ _) with false; [rewrite getTable_eq|].
    + unfold others in Hlen. simpl in Hlen. rewrite Hlen. reflexivity.
    + symmetry. apply not_true_is_false. intros (p & Hp & Hfk)%existsb_exists.
      rewrite (Hfree batteryPacks_ p _ Hp (or_introl eq_refl)) in Hfk. discriminate.
  - unfold batteryPacks.remove, mbind, js_bind, carBatteryPacks.list_, batteryPacks.list_.
    rewrite getTable_eq.
    replace (existsb _ _) with false; [rewrite getTable_eq|].
    + unfold others in Hlen. simpl in Hlen. rewrite Hlen. reflexivity.
    + symmetry. apply not_true_is_false. intros (p & Hp & Hfk)%existsb_exists.
      rewrite (Hfree carBatteryPacks_ p _ Hp (or_intror (or_introl eq_refl))) in Hfk.
      discriminate.
  - unfold cars.remove, mbind, js_bind, carBatteryPacks.list_, cars.list_.
    rewrite getTable_eq.
    replace (existsb _ _) with false; [rewrite getTable_eq|].
    + unfold others in Hlen. simpl in Hlen. rewrite Hlen. reflexivity.
    + symmetry. apply not_true_is_false. intros (p & Hp & Hfk)%existsb_exists.
      rewrite (Hfree carBatteryPacks_ p _ Hp (or_introl eq_refl)) in Hfk. discriminate.
  - unfold carBatteryPacks.remove, mbind, js_bind, carBatteryPacks.list_.
    rewrite getTable_eq.
    unfold others in Hlen. simpl in Hlen. rewrite Hlen. reflexivity.
Qed.

Lemma dependents_removed_cellModels w w' :
  dependents_removed w w' →
  table cellModels_ (storage w') = table cellModels_ (storage w).
Proof.
  induction 1 as [w|w w1 w2 id _ IH Hstep|w w1 w2 id _ IH Hstep]; [reflexivity| |].
  - destruct (remove_effect batteryPacks_ id w1) as [[e He]|[He _]];
      simpl in He; rewrite He in Hstep; [discriminate|].
    injection Hstep as <-. rewrite <- IH. reflexivity.
  - destruct (remove_effect carBatteryPacks_ id w1) as [[e He]|[He _]];
      simpl in He; rewrite He in Hstep; [discriminate|].
    injection Hstep as <-. rewrite <- IH. reflexivity.
Qed.

(** A key that is [===] to the identifier [i] and to the identifier of a
    record names that record. *)
Lemma referenced_id (i j : Z) (fk : field) :
  strict_eq fk (num i) = true → id_is j fk = true → j = i.
Proof.
  intros Hfk (q & -> & Hq)%id_is_inv. simpl in Hfk.
  apply Qeq_bool_iff in Hfk, Hq.
  assert (H : (inject_Z j == inject_Z i)%Q) by (rewrite Hq, Hfk; reflexivity).
  unfold Qeq in H; simpl in H. lia.
Qed.

Lemma removed_gone tbl (i : Z) (items : list (row tbl)) r :
  In r (map stringify_parse (others tbl (num i) items)) → row_id r ≠ i.
Proof.
  intros (r0 & <- & [_ Hr0]%filter_In)%in_map_iff.
  rewrite row_id_stringify_parse. rewrite id_is_num in Hr0.
  now destruct (Z.eqb_spec (row_id r0) i).
Qed.

End DeleteGuard.

(** C3.  In every reachable state where some battery pack has [cellModelId]
    equal to the identifier [i], [cellModels.remove i] throws the conflict
    failure and leaves the storage as it was; and in every state reached from
    there by removing battery packs (and junction rows) in which no battery
    pack refers to [i] any more, [cellModels.remove i] returns [true] and the
    cell model is gone. *)
Theorem cellModels_remove_guard (i : Z) (w : world) :
  reachable w →
  (∃ p, In p (table batteryPacks_ (storage w))
        ∧ strict_eq (BatteryPack.cellModelId p) (num i) = true) →
  cellModels.remove (num i) w = (Throw CellModelReferenced, w)
  ∧ classify CellModelReferenced = ConflictError
  ∧ ∀ w', dependents_removed w w' →
      (∀ p, In p (table batteryPacks_ (storage w')) →
            strict_eq (BatteryPack.cellModelId p) (num i) = false) →
      ∃ w'', cellModels.remove (num i) w' = (Return true, w'')
             ∧ ∀ c, In c (table cellModels_ (storage w'')) → CellModel.id c ≠ i.
Proof.
  intros Hreach (p & Hp & Hfk). split; [|split; [reflexivity|]].
  - unfold cellModels.remove, mbind, js_bind, batteryPacks.list_.
    rewrite getTable_eq.
    replace (existsb _ _) with true; [reflexivity|].
    symmetry. apply existsb_exists. eauto.
  - intros w' Hsteps Hfree.
    destruct (reachable_consistent w Hreach) as [HRI _].
    pose proof (HRI batteryPacks_ p Hp _ _ (or_introl eq_refl)) as Hres.
    assert (Hex : ∃ c : row cellModels_,
               In c (table cellModels_ (storage w)) ∧ row_id c = i).
    { unfold resolves, ids in Hres. rewrite existsb_map in Hres.
      destruct (BatteryPack.cellModelId p) as [[| | |]|]; try discriminate;
        apply existsb_exists in Hres as (c & Hc & Hid);
        exists c; (split; [assumption|]); eapply referenced_id; eassumption. }
    destruct Hex as (c & Hc & <-).
    rewrite <- (dependents_removed_cellModels _ _ Hsteps) in Hc.
    eexists. split.
    + apply (remove_succeeds cellModels_ (num (row_id c)) w' c Hc (id_is_self _)).
      intros tbl' r' fk Hr' Hfk'.
      destruct tbl'; simpl in Hfk'; try (destruct Hfk' as [[=]|[[=]|[]]]; fail);
        try (destruct Hfk'; fail).
      destruct Hfk' as [[= <-]|[]]. now apply Hfree.
    + intros c' Hc'. rewrite storage_saved, table_storeItem_eq in Hc'.
      exact (removed_gone cellModels_ _ _ _ Hc').
Qed.

Lemma cellModels_remove_guard_witness :
  let w' := snd (batteryPacks.remove (num 1)
                   (snd (carBatteryPacks.remove (num 1) seededWorld))) in
  cellModels.remove (num 17) seededWorld = (Throw CellModelReferenced, seededWorld)
  ∧ ∃ w'', cellModels.remove (num 17) w' = (Return true, w'').
Proof.
  intros w'.
  assert (Hex : ∃ p, In p (table batteryPacks_ (storage seededWorld))
                     ∧ strict_eq (BatteryPack.cellModelId p) (num 17) = true).
  { eexists. split; [vm_compute; left; reflexivity | vm_compute; reflexivity]. }
  destruct (cellModels_remove_guard 17 seededWorld reachable_seeded Hex)
    as (Hthrow & _ & Hlater).
  split; [exact Hthrow|].
  destruct (Hlater w') as (w'' & Hw'' & _).
  - apply (removed_pack _ (snd (carBatteryPacks.remove (num 1) seededWorld)) _ (num 1)).
    + apply (removed_relation _ seededWorld _ (num 1)); [apply removed_none|].
      vm_compute; reflexivity.
    + vm_compute; reflexivity.
  - assert (H : forallb (λ p, negb (strict_eq (BatteryPack.cellModelId p) (num 17)))
                 (table batteryPacks_ (storage w')) = true)
      by (vm_compute; reflexivity).
    intros p Hp. apply negb_true_iff. exact (proj1 (forallb_forall _ _) H p Hp).
  - exists w''. exact Hw''.
Defined.

(** * Referential integrity of the reachable states *)

(** C4.  In every state reached from the empty or the seeded storage by
    create, update and remove calls, each foreign key that holds a value other
    than null is the identifier of a record of its target table. *)
Theorem referential_integrity_invariant (w : world) :
  reachable w →
  (∀ p, In p (table batteryPacks_ (storage w)) →
        refers_to (BatteryPack.cellModelId p) cellModels_ (storage w))
  ∧ (∀ rel, In rel (table carBatteryPacks_ (storage w)) →
        refers_to (CarBatteryPack.carId rel) cars_ (storage w)
        ∧ refers_to (CarBatteryPack.batteryPackId rel) batteryPacks_ (storage w)).
Proof.
  intros [HRI _]%reachable_consistent. split.
  - intros p Hp. apply resolves_refers_to.
    exact (HRI batteryPacks_ p Hp _ _ (or_introl eq_refl)).
  - intros rel Hrel. split; apply resolves_refers_to.
    + exact (HRI carBatteryPacks_ rel Hrel _ _ (or_introl eq_refl)).
    + exact (HRI carBatteryPacks_ rel Hrel _ _ (or_intror (or_introl eq_refl))).
Qed.

Lemma referential_integrity_invariant_witness :
  let w := snd (perform (Remove cellModels_ (num 5))
             (snd (perform (Update batteryPacks_ (num 2) (obj [("cellModelId", int 4)]))
                seededWorld))) in
  (∀ p, In p (table batteryPacks_ (storage w)) →
        refers_to (BatteryPack.cellModelId p) cellModels_ (storage w))
  ∧ (∀ rel, In rel (table carBatteryPacks_ (storage w)) →
        refers_to (CarBatteryPack.carId rel) cars_ (storage w)
        ∧ refers_to (CarBatteryPack.batteryPackId rel) batteryPacks_ (storage w)).
Proof.
  intros w. apply referential_integrity_invariant.
  unfold w. do 2 apply reachable_step. apply reachable_seeded.
Defined.

(** * Identifier assignment *)

(** C5, as the code has it.  In every reachable state the identifiers of a
    table are distinct, and [create] assigns [max (ids ∪ {0}) + 1], which is
    1 on an empty table and is above every identifier in use, so they stay
    distinct.  After a [remove] of [d], the next [create] assigns [d] again
    exactly when [d] is [max (remaining ids ∪ {0}) + 1]; the table need not
    be empty for that. *)
Theorem create_assigns_next_id (tbl : TABLES) (w : world) :
  reachable w →
  NoDup (ids tbl (storage w))
  ∧ (∀ x r w', T.create tbl x w = (Return r, w') →
       row_id r = max0 (ids tbl (storage w)) + 1
       ∧ (ids tbl (storage w) = [] → row_id r = 1)
       ∧ (∀ i, In i (ids tbl (storage w)) → i < row_id r)
       ∧ ids tbl (storage w') = (ids tbl (storage w) ++ [row_id r])%list
       ∧ NoDup (ids tbl (storage w')))
  ∧ (∀ d w1 x r w2,
       T.remove tbl (num d) w = (Return true, w1) →
       T.create tbl x w1 = (Return r, w2) →
       (row_id r = d ↔ d = max0 (ids tbl (storage w1)) + 1)).
Proof.
  intros Hreach.
  assert (Hnext : ∀ w0, reachable w0 →
            ∀ x r w', T.create tbl x w0 = (Return r, w') →
              row_id r = max0 (ids tbl (storage w0)) + 1
              ∧ (∀ i, In i (ids tbl (storage w0)) → i < row_id r)
              ∧ ids tbl (storage w') = (ids tbl (storage w0) ++ [row_id r])%list).
  { intros w0 Hw0 x r w' Hcreate.
    destruct (reachable_consistent w0 Hw0) as [_ [_ Hids]].
    destruct (Hids tbl) as [_ Hpos].
    destruct (create_effect tbl x w0) as [[e He]|(r0 & He & Hid & _)];
      rewrite He in Hcreate; [discriminate|].
    injection Hcreate as <- <-.
    split; [rewrite Hid; now apply nextId_max0|].
    split; [intros i Hi; rewrite Hid; now apply nextId_fresh|].
    rewrite storage_saved, ids_storeItem_eq, map_app. reflexivity. }
  split; [apply (reachable_consistent w Hreach)|]. split.
  - intros x r w' Hcreate.
    destruct (Hnext w Hreach x r w' Hcreate) as (Hmax & Hfresh & Hids).
    split; [exact Hmax|]. split; [intros Hnil; rewrite Hmax, Hnil; reflexivity|].
    split; [exact Hfresh|]. split; [exact Hids|].
    assert (Hw' : reachable w').
    { replace w' with (snd (perform (Create tbl x) w)); [now apply reachable_step|].
      simpl. rewrite snd_bind_ret, Hcreate. reflexivity. }
    apply (reachable_consistent w' Hw').
  - intros d w1 x r w2 Hremove Hcreate.
    assert (Hw1 : reachable w1).
    { replace w1 with (snd (perform (Remove tbl (num d)) w)); [now apply reachable_step|].
      simpl. rewrite snd_bind_ret, Hremove. reflexivity. }
    destruct (Hnext w1 Hw1 x r w2 Hcreate) as (-> & _).
    split; intros H; now rewrite H.
Qed.

Lemma create_assigns_next_id_witness :
  let x := obj [("brand", VStr "Fiat"); ("model", VStr "500e")] in
  ∃ r w', T.create cars_ x seededWorld = (Return r, w')
          ∧ row_id r = max0 (ids cars_ (storage seededWorld)) + 1
          ∧ row_id r = 29.
Proof.
  intros x. do 2 eexists.
  split; [vm_compute; reflexivity|].
  split; [|reflexivity].
  eapply (proj1 (proj2 (create_assigns_next_id cars_ seededWorld reachable_seeded)) x).
  vm_compute; reflexivity.
Defined.

(** C5, as stated, fails on reuse: after three cell models are created and
    the third is removed, the table holds the identifiers 1 and 2, and the
    next [create] assigns 3 again. *)
Lemma deleted_id_reused :
  let w3 := snd (forEach cellModels.create [∅; ∅; ∅] emptyWorld) in
  ∃ w4 r w5,
    cellModels.remove (num 3) w3 = (Return true, w4)
    ∧ ids cellModels_ (storage w4) = [1; 2]
    ∧ cellModels.create ∅ w4 = (Return r, w5)
    ∧ CellModel.id r = 3.
Proof.
  do 3 eexists.
  split; [vm_compute; reflexivity|].
  split; [vm_compute; reflexivity|].
  split; [vm_compute; reflexivity|].
  reflexivity.
Qed.

(** * Partial update *)

Section Update.

Lemma attribute_stringify_parse {tbl} (r : row tbl) (k : string) :
  attribute (stringify_parse r) k = json (attribute r k).
Proof.
  destruct tbl; simpl;
    repeat match goal with
      | |- context [String.eqb k ?s] => destruct (String.eqb k s); [reflexivity|]
      end;
    reflexivity.
Qed.

Lemma lookup_map {A B} (f : A → B) (l : list A) (n : nat) :
  map f l !! n = f <$> (l !! n).
Proof.
  revert n; induction l as [|a l IH]; intros [|n]; simpl; try reflexivity. apply IH.
Qed.

Lemma lookup_singleton_other (f k : string) (v : value) :
  k ≠ f → ({[ f := v ]} : object) !! k = None.
Proof. intros H. apply lookup_singleton_ne. congruence. Qed.

End Update.

(** C6.  In every reachable state, [update id {f: v}] leaves every other
    table as it is, keeps the table at its length, keeps in every record every
    attribute other than [f], and keeps whole every record whose identifier
    is not [id]. *)
Theorem update_single_field (tbl : TABLES) (id : field) (f : string) (v : value) (w : world) :
  reachable w →
  let w' := snd (T.update tbl id {[ f := v ]} w) in
  (∀ tbl', tbl' ≠ tbl → table tbl' (storage w') = table tbl' (storage w))
  ∧ length (table tbl (storage w')) = length (table tbl (storage w))
  ∧ ∀ n r, table tbl (storage w) !! n = Some r →
      ∃ r', table tbl (storage w') !! n = Some r'
            ∧ (∀ k, k ≠ f → attribute r' k = attribute r k)
            ∧ (id_is (row_id r) id = false → r' = r).
Proof.
  intros Hreach w'. subst w'.
  destruct (reachable_consistent w Hreach) as [_ [Hclean _]].
  destruct (update_effect tbl id {[ f := v ]} w)
    as [[e ->]|(n0 & old & new & Hfind & -> & Hid & Hframe & _)]; simpl snd.
  - split; [reflexivity|]. split; [reflexivity|]. intros n r Hn. eauto.
  - apply findIndex_Some in Hfind as (Hn0 & Hmatch & _).
    rewrite storage_saved. split; [|split].
    + intros tbl' Hne. apply table_storeItem_ne. congruence.
    + rewrite table_storeItem_eq, length_map. apply length_insert.
    + intros n r Hn. rewrite table_storeItem_eq, lookup_map.
      destruct (decide (n = n0)) as [->|Hne].
      * rewrite list_lookup_insert_eq by (eapply lookup_lt_Some; eassumption).
        rewrite Hn0 in Hn. injection Hn as ->.
        eexists. split; [reflexivity|]. split.
        -- intros k Hk. rewrite attribute_stringify_parse.
           rewrite (Hframe k (lookup_singleton_other f k v Hk)).
           rewrite <- attribute_stringify_parse.
           rewrite (Hclean tbl r (lookup_In _ _ _ Hn0)). reflexivity.
        -- intros Hno. rewrite Hmatch in Hno. discriminate.
      * rewrite list_lookup_insert_ne by congruence. rewrite Hn. simpl.
        rewrite (Hclean tbl r (lookup_In _ _ _ Hn)). eauto.
Qed.

Lemma update_single_field_witness :
  let w' := snd (T.update cars_ (num 7) {[ "trim" := VStr "64 kWh" ]} seededWorld) in
  (∀ tbl', tbl' ≠ cars_ → table tbl' (storage w') = table tbl' (storage seededWorld))
  ∧ length (table cars_ (storage w')) = length (table cars_ (storage seededWorld))
  ∧ ∀ n r, table cars_ (storage seededWorld) !! n = Some r →
      ∃ r', table cars_ (storage w') !! n = Some r'
            ∧ (∀ k, k ≠ "trim" → attribute r' k = attribute r k)
            ∧ (id_is (row_id r) (num 7) = false → r' = r).
Proof.
  exact (update_single_field cars_ (num 7) "trim" (VStr "64 kWh") seededWorld
           reachable_seeded).
Defined.

(** * Update of a record that does not exist *)

(** C7, as the code has it.  When no record has the identifier [id],
    [update id x] throws and writes nothing: the not-found failure when the
    foreign keys supplied in [x] resolve, and the validation failure when one
    of them does not, because the keys are checked before the record is
    looked up. *)
Theorem update_missing_record (tbl : TABLES) (id : field) (x : object) (w : world) :
  (∀ r, In r (table tbl (storage w)) → id_is (row_id r) id = false) →
  ∃ e, T.update tbl id x w = (Throw e, w)
       ∧ classify e = if keys_resolve tbl x (storage w) then NotFoundError
                      else ValidationError.
Proof.
  intros Hnone. apply findIndex_None in Hnone.
  destruct tbl; simpl in *.
  - unfold cellModels.update, mbind, js_bind, cellModels.list_.
    rewrite getTable_eq, Hnone. eauto.
  - unfold batteryPacks.update, mbind, js_bind, batteryPacks.list_.
    rewrite update_check_eq.
    destruct (resolves _ _); cbn [negb]; [|eauto].
    rewrite getTable_eq, Hnone. eauto.
  - unfold cars.update, mbind, js_bind, cars.list_.
    rewrite getTable_eq, Hnone. eauto.
  - unfold carBatteryPacks.update, mbind, js_bind, carBatteryPacks.list_.
    rewrite update_check_eq.
    destruct (resolves _ _); cbn [negb andb]; [|eauto].
    rewrite update_check_eq.
    destruct (resolves _ _); cbn [negb]; [|eauto].
    rewrite getTable_eq, Hnone. eauto.
Qed.

Lemma update_missing_record_witness :
  ∃ e, T.update cars_ (num 99) (obj [("brand", VStr "Saab")]) seededWorld
       = (Throw e, seededWorld)
       ∧ classify e = NotFoundError.
Proof.
  apply (update_missing_record cars_ (num 99) (obj [("brand", VStr "Saab")]) seededWorld).
  assert (H : forallb (λ r, negb (id_is (Car.id r) (num 99)))
               (table cars_ (storage seededWorld)) = true)
    by (vm_compute; reflexivity).
  intros r Hr. apply negb_true_iff. exact (proj1 (forallb_forall _ _) H r Hr).
Defined.

(** C7, as stated, fails when a supplied foreign key does not resolve:
    [batteryPacks.update] of the missing identifier 99 with
    [{cellModelId: 99}] on the empty storage throws the validation failure,
    not the not-found one. *)
Lemma update_missing_record_invalid_key :
  (∀ r, In r (table batteryPacks_ (storage emptyWorld)) →
        id_is (row_id r) (num 99) = false)
  ∧ batteryPacks.update (num 99) (obj [("cellModelId", int 99)]) emptyWorld
    = (Throw InvalidCellModelId, emptyWorld)
  ∧ classify InvalidCellModelId ≠ NotFoundError.
Proof.
  split; [intros r []|]. split; [vm_compute; reflexivity | discriminate].
Qed.

(** * Failures write nothing *)

(** C8.  A create, update or remove call that throws leaves the world as it
    was: the four tables are unchanged and no [setItem] was issued. *)
Theorem failure_is_atomic (op : operation) (w w' : world) (e : error) :
  perform op w = (Throw e, w') →
  w' = w
  ∧ writes w' = writes w
  ∧ ∀ tbl, lookupItem tbl (storage w') = lookupItem tbl (storage w).
Proof.
  intros Hthrow.
  assert (Hw : w' = w); [|subst w'; auto].
  destruct op as [tbl x|tbl id x|tbl id]; simpl in Hthrow;
    unfold mbind, js_bind in Hthrow.
  - destruct (create_effect tbl x w) as [[e' He]|(r & He & _)];
      rewrite He in Hthrow; [|discriminate].
    now injection Hthrow.
  - destruct (update_effect tbl id x w) as [[e' He]|(n & old & new & _ & He & _)];
      rewrite He in Hthrow; [|discriminate].
    now injection Hthrow.
  - destruct (remove_effect tbl id w) as [[e' He]|(He & _)];
      rewrite He in Hthrow; [|discriminate].
    now injection Hthrow.
Qed.

Lemma failure_is_atomic_witness :
  let op := Create carBatteryPacks_ (obj [("carId", int 1); ("batteryPackId", int 22)]) in
  perform op seededWorld = (Throw InvalidBatteryPackId, seededWorld)
  ∧ writes seededWorld = 99%nat.
Proof.
  intros op.
  assert (H : perform op seededWorld
              = (Throw InvalidBatteryPackId, snd (perform op seededWorld)))
    by (vm_compute; reflexivity).
  destruct (failure_is_atomic op seededWorld _ _ H) as (Hw & _).
  rewrite Hw in H. split; [exact H | vm_compute; reflexivity].
Defined.

(** * Reset *)

(** C9.  From any state, [reset] returns; it removes the four entries and
    seeds them again through [create], cell models first, then cars, battery
    packs and junction rows, which leaves the seeded storage: 22 cell models,
    28 cars, 21 battery packs and 28 junction rows. *)
Theorem reset_restores_seed (w : world) :
  ∃ w', DB.reset w = (Return (), w')
        ∧ w' = snd (DB.loadInitialData (World emptyStorage (4 + writes w)))
        ∧ storage w' = storage seededWorld
        ∧ length (table cellModels_ (storage w')) = 22%nat
        ∧ length (table cars_ (storage w')) = 28%nat
        ∧ length (table batteryPacks_ (storage w')) = 21%nat
        ∧ length (table carBatteryPacks_ (storage w')) = 28%nat.
Proof.
  destruct w as [ls n]. eexists.
  split; [vm_compute; reflexivity|].
  split; [vm_compute; reflexivity|].
  split; [vm_compute; reflexivity|].
  repeat split; vm_compute; reflexivity.
Qed.

(** * Junction records *)

(** C10.  [carBatteryPacks.create] returns whenever each of [carId] and
    [batteryPackId] is null, absent or an existing identifier, and the record
    it appends to the stored table holds the two fields exactly as supplied,
    absent when absent; so an empty input yields a stored junction record
    with neither endpoint.  [batteryPacks.create], in contrast, stores null
    for an absent [cellModelId].  In a reachable state the appended record is
    the one that [get] finds under the new identifier. *)
Theorem carBatteryPacks_create_keys (w : world) :
  (∀ x : object,
     resolves (x !! "carId") (ids cars_ (storage w)) = true →
     resolves (x !! "batteryPackId") (ids batteryPacks_ (storage w)) = true →
     ∃ r w', carBatteryPacks.create x w = (Return r, w')
             ∧ CarBatteryPack.carId r = x !! "carId"
             ∧ CarBatteryPack.batteryPackId r = x !! "batteryPackId"
             ∧ table carBatteryPacks_ (storage w')
               = (map (stringify_parse (tbl := carBatteryPacks_))
                      (table carBatteryPacks_ (storage w)) ++ [r])%list
             ∧ (reachable w →
                carBatteryPacks.get (num (CarBatteryPack.id r)) w'
                = (Return (Some r), w')))
  ∧ (∃ r w', carBatteryPacks.create ∅ w = (Return r, w')
             ∧ CarBatteryPack.carId r = None
             ∧ CarBatteryPack.batteryPackId r = None
             ∧ table carBatteryPacks_ (storage w')
               = (map (stringify_parse (tbl := carBatteryPacks_))
                      (table carBatteryPacks_ (storage w)) ++ [r])%list
             ∧ (reachable w →
                carBatteryPacks.get (num (CarBatteryPack.id r)) w'
                = (Return (Some r), w')))
  ∧ (∃ r w' r', batteryPacks.create ∅ w = (Return r, w')
                ∧ table batteryPacks_ (storage w')
                  = (map (stringify_parse (tbl := batteryPacks_))
                         (table batteryPacks_ (storage w)) ++ [r'])%list
                ∧ BatteryPack.cellModelId r' = null
                ∧ (reachable w →
                   batteryPacks.get (num (BatteryPack.id r)) w'
                   = (Return (Some r'), w'))).
Proof.
  assert (Hjunction : ∀ x : object,
     resolves (x !! "carId") (ids cars_ (storage w)) = true →
     resolves (x !! "batteryPackId") (ids batteryPacks_ (storage w)) = true →
     ∃ r w', carBatteryPacks.create x w = (Return r, w')
             ∧ CarBatteryPack.carId r = x !! "carId"
             ∧ CarBatteryPack.batteryPackId r = x !! "batteryPackId"
             ∧ table carBatteryPacks_ (storage w')
               = (map (stringify_parse (tbl := carBatteryPacks_))
                      (table carBatteryPacks_ (storage w)) ++ [r])%list
             ∧ (reachable w →
                carBatteryPacks.get (num (CarBatteryPack.id r)) w'
                = (Return (Some r), w'))).
  { intros x Hcar Hpack.
    assert (Hres : keys_resolve carBatteryPacks_ x (storage w) = true)
      by (simpl; now rewrite Hcar, Hpack).
    destruct (create_stored carBatteryPacks_ x w Hres) as (r & Hcreate & Hid & Hsp).
    simpl in Hcreate.
    assert (Hr : r = expected carBatteryPacks_ (row_id r) x).
    { revert Hcreate. unfold carBatteryPacks.create, mbind, js_bind.
      rewrite validateFK_eq, Hcar; cbn [negb]. rewrite validateFK_eq, Hpack.
      cbn. intros [= Hr _]. rewrite <- Hr. reflexivity. }
    exists r, (saved carBatteryPacks_ (table carBatteryPacks_ (storage w) ++ [r]) w).
    split; [exact Hcreate|].
    split; [rewrite Hr; reflexivity|]. split; [rewrite Hr; reflexivity|].
    assert (Hself : stringify_parse r = r) by (rewrite Hsp, <- Hr; reflexivity).
    split.
    - rewrite storage_saved, table_storeItem_eq, map_app. cbn [map].
      now rewrite Hself.
    - intros _.
      change (T.get carBatteryPacks_ (num (row_id r))
                (saved carBatteryPacks_ (table carBatteryPacks_ (storage w) ++ [r]) w)
              = (Return (Some r),
                 saved carBatteryPacks_ (table carBatteryPacks_ (storage w) ++ [r]) w)).
      rewrite get_eq, storage_saved, table_storeItem_eq, find_fresh.
      + rewrite Hself. reflexivity.
      + intros i Hi. rewrite Hid. now apply nextId_fresh. }
  split; [exact Hjunction|]. split.
  - destruct (Hjunction ∅) as (r & w' & Hcreate & Hcar & Hpack & Htable & Hget);
      try (rewrite lookup_empty; reflexivity).
    rewrite lookup_empty in Hcar, Hpack.
    exists r, w'. repeat split; assumption.
  - assert (Hres : keys_resolve batteryPacks_ ∅ (storage w) = true)
      by (simpl; rewrite lookup_empty; reflexivity).
    destruct (create_stored batteryPacks_ ∅ w Hres) as (r & Hcreate & Hid & Hsp).
    exists r, (saved batteryPacks_ (table batteryPacks_ (storage w) ++ [r]) w),
      (stringify_parse r).
    split; [exact Hcreate|]. split; [|split].
    + rewrite storage_saved, table_storeItem_eq. apply map_app.
    + rewrite Hsp. simpl.
      rewrite <- (json_or_else ∅ "cellModelId" null eq_refl), lookup_empty. reflexivity.
    + intros _.
      change (T.get batteryPacks_ (num (row_id r))
                (saved batteryPacks_ (table batteryPacks_ (storage w) ++ [r]) w)
              = (Return (Some (stringify_parse r)),
                 saved batteryPacks_ (table batteryPacks_ (storage w) ++ [r]) w)).
      rewrite get_eq, storage_saved, table_storeItem_eq, find_fresh; [reflexivity|].
      intros i Hi. rewrite Hid. now apply nextId_fresh.
Qed.

Lemma carBatteryPacks_create_keys_witness :
  let x := obj [("carId", VNull); ("batteryPackId", int 4)] in
  ∃ r w', carBatteryPacks.create x seededWorld = (Return r, w')
          ∧ CarBatteryPack.carId r = null
          ∧ CarBatteryPack.batteryPackId r = num 4
          ∧ carBatteryPacks.get (num (CarBatteryPack.id r)) w' = (Return (Some r), w').
Proof.
  intros x.
  assert (Hcar : resolves (x !! "carId") (ids cars_ (storage seededWorld)) = true)
    by (vm_compute; reflexivity).
  assert (Hpack : resolves (x !! "batteryPackId")
                    (ids batteryPacks_ (storage seededWorld)) = true)
    by (vm_compute; reflexivity).
  destruct (proj1 (carBatteryPacks_create_keys seededWorld) x Hcar Hpack)
    as (r & w' & Hcreate & Hc & Hp & _ & Hget).
  exists r, w'.
  split; [exact Hcreate|]. split; [exact Hc|]. split; [exact Hp|].
  exact (Hget reachable_seeded).
Defined.

(** * Scenarios *)

(** A car created without trim and end year reads back with both null; once
    removed, [get] finds nothing. *)
Example scenario_car :
  let x := obj [("brand", VStr "Tesla"); ("model", VStr "Model Y"); ("yearStart", int 2024)] in
  ∃ r w1 w2,
    cars.create x seededWorld = (Return r, w1)
    ∧ Car.id r = 29
    ∧ fst (cars.get (num 29) w1)
      = Return (Some (Car.Build 29 (str "Tesla") (str "Model Y") null (num 2024) null))
    ∧ cars.remove (num 29) w1 = (Return true, w2)
    ∧ fst (cars.get (num 29) w2) = Return None.
Proof.
  do 3 eexists.
  split; [vm_compute; reflexivity|].
  split; [reflexivity|].
  split; [vm_compute; reflexivity|].
  split; vm_compute; reflexivity.
Qed.

(** [update] tests its input against [undefined] only; unlike [create], it
    stores a supplied zero. *)
Example scenario_update_zero :
  ∃ r w1 r1,
    cellModels.update (num 1) (obj [("nominalVoltage", int 0)]) seededWorld = (Return r, w1)
    ∧ cellModels.get (num 1) w1 = (Return (Some r1), w1)
    ∧ CellModel.nominalVoltage r1 = num 0.
Proof.
  do 3 eexists.
  split; [vm_compute; reflexivity|].
  split; [vm_compute; reflexivity|].
  reflexivity.
Qed.

(** * Further properties: remove *)

Section Remove.

Lemma referenced_fks tbl id ls :
  referenced tbl id ls = true ↔
  ∃ tbl' (r : row tbl') fk,
    In r (table tbl' ls) ∧ In (fk, tbl) (fks r) ∧ strict_eq fk id = true.
Proof.
  split.
  - destruct tbl; simpl; try discriminate;
      intros (r & Hr & Hfk)%existsb_exists.
    + exists batteryPacks_, r, (BatteryPack.cellModelId r). simpl; auto.
    + exists carBatteryPacks_, r, (CarBatteryPack.batteryPackId r). simpl; auto.
    + exists carBatteryPacks_, r, (CarBatteryPack.carId r). simpl; auto.
  - intros (tbl' & r & fk & Hr & Hfk & Heq).
    destruct tbl, tbl'; simpl in Hfk;
      repeat (destruct Hfk as [[=]|Hfk]); try contradiction; subst;
      simpl; apply existsb_exists; eauto.
Qed.

Lemma others_all tbl id (items : list (row tbl)) :
  (∀ r, In r items → id_is (row_id r) id = false) → others tbl id items = items.
Proof.
  unfold others. induction items as [|a items IH]; intros H; simpl; [reflexivity|].
  rewrite (H a (or_introl eq_refl)); simpl. f_equal. apply IH.
  intros r Hr. apply H. right; assumption.
Qed.

(** Without a record that has the identifier, [remove] throws: the conflict
    failure when the guard fires, the not-found failure otherwise. *)
Lemma remove_absent tbl id w :
  (∀ r, In r (table tbl (storage w)) → id_is (row_id r) id = false) →
  ∃ e, T.remove tbl id w = (Throw e, w)
       ∧ classify e = if referenced tbl id (storage w) then ConflictError
                      else NotFoundError.
Proof.
  intros Hnone. pose proof (others_all tbl id _ Hnone) as Hall.
  assert (Hlen : Nat.eqb (length (others tbl id (table tbl (storage w))))
                         (length (table tbl (storage w))) = true)
    by (rewrite Hall; apply Nat.eqb_refl).
  unfold others in Hlen.
  destruct tbl; simpl in *.
  - unfold cellModels.remove, mbind, js_bind, batteryPacks.list_, cellModels.list_.
    rewrite getTable_eq. destruct (existsb _ _); [eauto|].
    rewrite getTable_eq, Hlen. eauto.
  - unfold batteryPacks.remove, mbind, js_bind, carBatteryPacks.list_, batteryPacks.list_.
    rewrite getTable_eq. destruct (existsb _ _); [eauto|].
    rewrite getTable_eq, Hlen. eauto.
  - unfold cars.remove, mbind, js_bind, carBatteryPacks.list_, cars.list_.
    rewrite getTable_eq. destruct (existsb _ _); [eauto|].
    rewrite getTable_eq, Hlen. eauto.
  - unfold carBatteryPacks.remove, mbind, js_bind, carBatteryPacks.list_.
    rewrite getTable_eq, Hlen. eauto.
Qed.

Lemma remove_referenced tbl id w :
  referenced tbl id (storage w) = true →
  ∃ e, T.remove tbl id w = (Throw e, w) ∧ classify e = ConflictError.
Proof.
  destruct tbl; simpl; intros Href; try discriminate.
  - unfold cellModels.remove, mbind, js_bind, batteryPacks.list_.
    rewrite getTable_eq, Href. eauto.
  - unfold batteryPacks.remove, mbind, js_bind, carBatteryPacks.list_.
    rewrite getTable_eq, Href. eauto.
  - unfold cars.remove, mbind, js_bind, carBatteryPacks.list_.
    rewrite getTable_eq, Href. eauto.
Qed.

(** In a storage with referential integrity, a key that is [===] to the
    identifier [i] comes with a record that has this identifier. *)
Lemma referenced_present tbl (i : Z) ls :
  referential_integrity ls → referenced tbl (num i) ls = true → In i (ids tbl ls).
Proof.
  intros HRI (tbl' & r & fk & Hr & Hfk & Heq)%referenced_fks.
  pose proof (HRI tbl' r Hr fk tbl Hfk) as Hres.
  unfold resolves in Hres.
  destruct fk as [[| | |]|]; try discriminate;
    apply existsb_exists in Hres as (j & Hj & Hid);
    now rewrite <- (referenced_id i j _ Heq Hid).
Qed.

Lemma In_ids tbl (i : Z) ls :
  In i (ids tbl ls) ↔ ∃ r : row tbl, In r (table tbl ls) ∧ row_id r = i.
Proof.
  unfold ids. rewrite in_map_iff. split; intros (r & H1 & H2); eauto.
Qed.

Lemma filter_ext_id tbl (i : Z) (items : list (row tbl)) :
  others tbl (num i) items = List.filter (λ r, negb (row_id r =? i)) items.
Proof.
  unfold others. apply List.filter_ext. intros r. now rewrite id_is_num.
Qed.

Lemma map_clean tbl (items : list (row tbl)) :
  (∀ r, In r items → stringify_parse r = r) → map stringify_parse items = items.
Proof.
  induction items as [|a items IH]; intros H; simpl; [reflexivity|].
  rewrite (H a (or_introl eq_refl)). f_equal. apply IH.
  intros r Hr. apply H. right; assumption.
Qed.

Lemma length_filter_unique tbl (i : Z) (items : list (row tbl)) :
  NoDup (map row_id items) → In i (map row_id items) →
  length items = S (length (List.filter (λ r, negb (row_id r =? i)) items)).
Proof.
  induction items as [|a items IH]; simpl; [contradiction|].
  intros [Hnotin Hnodup]%NoDup_cons Hin.
  destruct (Z.eqb_spec (row_id a) i) as [Heq|Hne]; simpl.
  - f_equal. rewrite <- (others_all tbl (num i) items) at 1; [now rewrite filter_ext_id|].
    intros r Hr. rewrite id_is_num. apply Z.eqb_neq. intros Hr'.
    apply Hnotin. rewrite Heq, <- Hr'. apply list_elem_of_In, in_map. exact Hr.
  - f_equal. apply IH; [assumption|]. destruct Hin as [Hin|Hin]; [contradiction|assumption].
Qed.

Lemma find_none_id tbl (i : Z) (items : list (row tbl)) :
  List.find (λ r, id_is (row_id r) (num i))
            (List.filter (λ r, negb (row_id r =? i)) items) = None.
Proof.
  induction items as [|a items IH]; simpl; [reflexivity|].
  destruct (Z.eqb_spec (row_id a) i) as [Heq|Hne]; simpl; [exact IH|].
  rewrite id_is_num. destruct (Z.eqb_spec (row_id a) i); [contradiction|exact IH].
Qed.

End Remove.

(** X1.  In every reachable state and for every table and identifier [i],
    [remove i] throws the conflict failure when a record of another table
    refers to [i]; throws the not-found failure when no record has the
    identifier [i] (no record can refer to it then); and returns [true] when
    a record has it and none refers to it. *)
Theorem remove_outcome (tbl : TABLES) (i : Z) (w : world) :
  reachable w →
  (referenced tbl (num i) (storage w) = true →
   In i (ids tbl (storage w))
   ∧ ∃ e, T.remove tbl (num i) w = (Throw e, w) ∧ classify e = ConflictError)
  ∧ (¬ In i (ids tbl (storage w)) →
     ∃ e, T.remove tbl (num i) w = (Throw e, w) ∧ classify e = NotFoundError)
  ∧ (In i (ids tbl (storage w)) → referenced tbl (num i) (storage w) = false →
     ∃ w', T.remove tbl (num i) w = (Return true, w')).
Proof.
  intros [HRI _]%reachable_consistent. split; [|split].
  - intros Href. split; [now apply referenced_present|now apply remove_referenced].
  - intros Habsent.
    destruct (remove_absent tbl (num i) w) as (e & He & Hclass).
    + intros r Hr. rewrite id_is_num. apply Z.eqb_neq. intros Heq.
      apply Habsent, In_ids. eauto.
    + exists e. split; [exact He|].
      destruct (referenced tbl (num i) (storage w)) eqn:Href; [|exact Hclass].
      exfalso. now apply Habsent, referenced_present.
  - intros (r & Hr & <-)%In_ids Hfree. eexists.
    apply (remove_succeeds tbl _ w r Hr (id_is_self _)).
    intros tbl' r' fk Hr' Hfk.
    destruct (strict_eq fk (num (row_id r))) eqn:E; [|reflexivity].
    rewrite <- Hfree. symmetry. apply referenced_fks. eauto 6.
Qed.

Lemma remove_outcome_witness :
  (∃ e, T.remove cars_ (num 3) seededWorld = (Throw e, seededWorld)
        ∧ classify e = ConflictError)
  ∧ (∃ e, T.remove cars_ (num 40) seededWorld = (Throw e, seededWorld)
          ∧ classify e = NotFoundError)
  ∧ (∃ w', T.remove cellModels_ (num 2) seededWorld = (Return true, w')).
Proof.
  split; [|split].
  - apply (proj1 (remove_outcome cars_ 3 seededWorld reachable_seeded)).
    vm_compute; reflexivity.
  - apply (proj1 (proj2 (remove_outcome cars_ 40 seededWorld reachable_seeded))).
    assert (H : forallb (λ j, negb (j =? 40)) (ids cars_ (storage seededWorld)) = true)
      by (vm_compute; reflexivity).
    intros Hin. apply (proj1 (forallb_forall _ _) H) in Hin.
    rewrite Z.eqb_refl in Hin. discriminate.
  - apply (proj2 (proj2 (remove_outcome cellModels_ 2 seededWorld reachable_seeded))).
    + assert (H : existsb (Z.eqb 2) (ids cellModels_ (storage seededWorld)) = true)
        by (vm_compute; reflexivity).
      apply existsb_exists in H as (j & Hj & ->%Z.eqb_eq). exact Hj.
    + vm_compute; reflexivity.
Defined.

(** X2.  In every reachable state, a [remove i] that returns has returned
    [true]; it has taken exactly the record with the identifier [i] out of
    its table and kept the others in their order; the other tables are as
    they were; and [get i] finds nothing afterwards. *)
Theorem remove_returns (tbl : TABLES) (i : Z) (w w' : world) (b : bool) :
  reachable w →
  T.remove tbl (num i) w = (Return b, w') →
  b = true
  ∧ table tbl (storage w')
    = List.filter (λ r, negb (row_id r =? i)) (table tbl (storage w))
  ∧ length (table tbl (storage w)) = S (length (table tbl (storage w')))
  ∧ (∀ tbl', tbl' ≠ tbl → table tbl' (storage w') = table tbl' (storage w))
  ∧ T.get tbl (num i) w' = (Return None, w').
Proof.
  intros Hreach Hremove.
  destruct (reachable_consistent w Hreach) as [_ [Hclean Hids]].
  destruct (remove_effect tbl (num i) w) as [[e He]|(He & Hlen & _)];
    rewrite He in Hremove; [discriminate|].
  injection Hremove as <- <-.
  assert (Htable : table tbl (storage (saved tbl (others tbl (num i)
                      (table tbl (storage w))) w))
                   = List.filter (λ r, negb (row_id r =? i)) (table tbl (storage w))).
  { rewrite storage_saved, table_storeItem_eq, map_clean; [apply filter_ext_id|].
    intros r [Hr _]%filter_In. now apply Hclean. }
  split; [reflexivity|]. split; [exact Htable|]. split; [|split].
  - rewrite Htable. apply length_filter_unique; [apply Hids|].
    destruct (in_dec Z.eq_dec i (ids tbl (storage w))) as [Hin|Hout]; [exact Hin|].
    exfalso. apply Hlen. f_equal. apply others_all.
    intros r Hr. rewrite id_is_num. apply Z.eqb_neq. intros Heq.
    apply Hout, In_ids. eauto.
  - intros tbl' Hne. rewrite storage_saved. apply table_storeItem_ne. congruence.
  - rewrite get_eq, Htable, find_none_id. reflexivity.
Qed.

Lemma remove_returns_witness :
  ∃ w', T.remove carBatteryPacks_ (num 5) seededWorld = (Return true, w')
        ∧ length (table carBatteryPacks_ (storage seededWorld))
          = S (length (table carBatteryPacks_ (storage w')))
        ∧ T.get carBatteryPacks_ (num 5) w' = (Return None, w').
Proof.
  exists (snd (T.remove carBatteryPacks_ (num 5) seededWorld)).
  assert (H : T.remove carBatteryPacks_ (num 5) seededWorld
              = (Return true, snd (T.remove carBatteryPacks_ (num 5) seededWorld)))
    by (vm_compute; reflexivity).
  destruct (remove_returns carBatteryPacks_ 5 seededWorld _ true reachable_seeded H)
    as (_ & _ & Hlen & _ & Hget).
  split; [exact H|]. split; [exact Hlen|exact Hget].
Defined.

(** * Further properties: create and the foreign-key check *)

Section Create.

Lemma find_unique tbl (items : list (row tbl)) (r : row tbl) :
  NoDup (map row_id items) → In r items →
  List.find (λ item, id_is (row_id item) (num (row_id r))) items = Some r.
Proof.
  induction items as [|a items IH]; simpl; [contradiction|].
  intros [Hnotin Hnodup]%NoDup_cons [->|Hr].
  - now rewrite id_is_self.
  - rewrite id_is_num. destruct (Z.eqb_spec (row_id a) (row_id r)) as [Heq|_].
    + exfalso. apply Hnotin. rewrite Heq. apply list_elem_of_In, in_map. exact Hr.
    + now apply IH.
Qed.

Lemma find_app_l {A} (p : A → bool) (l l' : list A) (a : A) :
  List.find p l = Some a → List.find p (l ++ l') = Some a.
Proof.
  induction l as [|b l IH]; simpl; [discriminate|]. destruct (p b); auto.
Qed.

End Create.

(** X3.  In every reachable state, a [create] that returns has appended the
    new record, as JSON carries it, to the end of its table; the other tables
    are as they were; and [get] still finds every earlier record, unchanged,
    under its identifier. *)
Theorem create_appends (tbl : TABLES) (x : object) (w w' : world) (r : row tbl) :
  reachable w →
  T.create tbl x w = (Return r, w') →
  table tbl (storage w') = (table tbl (storage w) ++ [stringify_parse r])%list
  ∧ (∀ tbl', tbl' ≠ tbl → table tbl' (storage w') = table tbl' (storage w))
  ∧ (∀ r0, In r0 (table tbl (storage w)) →
       T.get tbl (num (row_id r0)) w' = (Return (Some r0), w')).
Proof.
  intros Hreach Hcreate.
  destruct (reachable_consistent w Hreach) as [_ [Hclean Hids]].
  destruct (create_effect tbl x w) as [[e He]|(r' & He & _)];
    rewrite He in Hcreate; [discriminate|].
  injection Hcreate as <- <-.
  assert (Htable : table tbl (storage (saved tbl (table tbl (storage w) ++ [r']) w))
                   = (table tbl (storage w) ++ [stringify_parse r'])%list).
  { rewrite storage_saved, table_storeItem_eq, map_app, map_clean; [reflexivity|].
    apply Hclean. }
  split; [exact Htable|]. split.
  - intros tbl' Hne. rewrite storage_saved. apply table_storeItem_ne. congruence.
  - intros r0 Hr0. rewrite get_eq, Htable.
    erewrite find_app_l; [reflexivity|]. apply find_unique; [apply Hids|exact Hr0].
Qed.

Lemma create_appends_witness :
  let x := obj [("brand", VStr "Fiat"); ("yearStart", VNum (Infinity false))] in
  let r := Car.Build 29 (str "Fiat") (str "") null (Some (VNum (Infinity false))) null in
  ∃ w', T.create cars_ x seededWorld = (Return r, w')
        ∧ table cars_ (storage w')
          = (table cars_ (storage seededWorld)
             ++ [Car.Build 29 (str "Fiat") (str "") null null null])%list.
Proof.
  intros x r.
  exists (snd (T.create cars_ x seededWorld)).
  assert (H : T.create cars_ x seededWorld
              = (Return r, snd (T.create cars_ x seededWorld)))
    by (vm_compute; reflexivity).
  split; [exact H|].
  exact (proj1 (create_appends cars_ x seededWorld _ _ reachable_seeded H)).
Defined.

(** X4.  In every reachable state, removing the record that [create] has
    just returned goes through, for every table, and puts the four tables
    back as they were before the [create]. *)
Theorem create_then_remove (tbl : TABLES) (x : object) (w w1 : world) (r : row tbl) :
  reachable w →
  T.create tbl x w = (Return r, w1) →
  ∃ w2, T.remove tbl (num (row_id r)) w1 = (Return true, w2)
        ∧ (∀ tbl', table tbl' (storage w2) = table tbl' (storage w))
        ∧ T.get tbl (num (row_id r)) w2 = (Return None, w2).
Proof.
  intros Hreach Hcreate.
  destruct (reachable_consistent w Hreach) as [HRI [Hclean Hids]].
  destruct (create_effect tbl x w) as [[e He]|(r' & He & Hid & _)];
    rewrite He in Hcreate; [discriminate|].
  injection Hcreate as <- <-.
  set (items := table tbl (storage w)).
  set (w1 := saved tbl (items ++ [r']) w).
  assert (Hfresh : ∀ r0, In r0 items → id_is (row_id r0) (num (row_id r')) = false).
  { intros r0 Hr0. rewrite id_is_num. apply Z.eqb_neq.
    assert (Hlt : row_id r0 < row_id r'); [|lia].
    rewrite Hid. apply nextId_fresh, in_map, Hr0. }
  assert (Htable : table tbl (storage w1) = (items ++ [stringify_parse r'])%list).
  { unfold w1. rewrite storage_saved, table_storeItem_eq, map_app, map_clean;
      [reflexivity | apply Hclean]. }
  assert (Hkept : others tbl (num (row_id r')) (table tbl (storage w1)) = items).
  { rewrite Htable. unfold others. rewrite List.filter_app. simpl.
    rewrite row_id_stringify_parse, id_is_self. simpl. rewrite app_nil_r.
    now apply others_all. }
  exists (saved tbl (others tbl (num (row_id r')) (table tbl (storage w1))) w1).
  split; [|split].
  - apply (remove_succeeds tbl _ w1 (stringify_parse r')).
    + rewrite Htable. apply in_or_app; right; left; reflexivity.
    + rewrite row_id_stringify_parse. apply id_is_self.
    + intros tbl' r0 fk Hr0 Hfk.
      destruct (strict_eq fk (num (row_id r'))) eqn:E; [|reflexivity].
      assert (Hne : tbl ≠ tbl') by (intros ->; exact (fks_not_self _ _ Hfk)).
      unfold w1 in Hr0. rewrite storage_saved, table_storeItem_ne in Hr0 by exact Hne.
      exfalso. assert (Hin : In (row_id r') (ids tbl (storage w))).
      { apply referenced_present; [exact HRI|]. apply referenced_fks. eauto 6. }
      apply In_ids in Hin as (r1 & Hr1 & Heq).
      pose proof (Hfresh r1 Hr1) as Hno. rewrite Heq, id_is_self in Hno. discriminate.
  - intros tbl'. rewrite storage_saved, Hkept.
    destruct (decide (tbl = tbl')) as [<-|Hne].
    + rewrite table_storeItem_eq. apply map_clean, Hclean.
    + rewrite table_storeItem_ne by exact Hne.
      unfold w1. rewrite storage_saved. now apply table_storeItem_ne.
  - rewrite get_eq, storage_saved, table_storeItem_eq, Hkept, map_clean by apply Hclean.
    destruct (List.find _ items) as [r0|] eqn:E; [|reflexivity].
    apply find_some in E as [Hr0 Hyes]. rewrite (Hfresh r0 Hr0) in Hyes. discriminate.
Qed.

Lemma create_then_remove_witness :
  let x := obj [("name", VStr "Spare pack"); ("cellModelId", int 3)] in
  ∃ r w1 w2, T.create batteryPacks_ x seededWorld = (Return r, w1)
             ∧ T.remove batteryPacks_ (num (row_id r)) w1 = (Return true, w2)
             ∧ ∀ tbl', table tbl' (storage w2) = table tbl' (storage seededWorld).
Proof.
  intros x.
  exists (BatteryPack.Build 22 (str "Spare pack") null null null null (num 3)).
  exists (snd (T.create batteryPacks_ x seededWorld)).
  match goal with |- ∃ w2, ?c = (Return ?r, ?w1) ∧ _ =>
    assert (H : c = (Return r, w1)) by (vm_compute; reflexivity)
  end.
  destruct (create_then_remove batteryPacks_ x seededWorld _ _ reachable_seeded H)
    as (w2 & Hremove & Htables & _).
  exists w2. split; [exact H|]. split; [exact Hremove | exact Htables].
Defined.

(** X5.  When a foreign key supplied in the input does not resolve, both
    [create] and [update], the latter for any identifier, throw the
    validation failure and write nothing.  On the junction table [carId] is
    checked first: if it does not resolve the failure is the one about
    [carId], whatever [batteryPackId] holds. *)
Theorem unresolved_key_rejected (tbl : TABLES) (id : field) (x : object) (w : world) :
  keys_resolve tbl x (storage w) = false →
  (∃ e, T.create tbl x w = (Throw e, w) ∧ classify e = ValidationError)
  ∧ (∃ e, T.update tbl id x w = (Throw e, w) ∧ classify e = ValidationError)
  ∧ (resolves (x !! "carId") (ids cars_ (storage w)) = false →
     carBatteryPacks.create x w = (Throw InvalidCarId, w)
     ∧ carBatteryPacks.update id x w = (Throw InvalidCarId, w)).
Proof.
  intros Hres. split; [|split].
  - destruct tbl; simpl in *; try discriminate.
    + unfold batteryPacks.create, mbind, js_bind. rewrite validateFK_eq, Hres. eauto.
    + unfold carBatteryPacks.create, mbind, js_bind. rewrite validateFK_eq.
      destruct (resolves (x !! "carId") _); cbn [negb]; [|eauto].
      simpl in Hres. rewrite validateFK_eq, Hres. eauto.
  - destruct tbl; simpl in *; try discriminate.
    + unfold batteryPacks.update, mbind, js_bind. rewrite update_check_eq, Hres. eauto.
    + unfold carBatteryPacks.update, mbind, js_bind. rewrite update_check_eq.
      destruct (resolves (x !! "carId") _); cbn [negb]; [|eauto].
      simpl in Hres. rewrite update_check_eq, Hres. eauto.
  - intros Hcar. split.
    + unfold carBatteryPacks.create, mbind, js_bind. now rewrite validateFK_eq, Hcar.
    + unfold carBatteryPacks.update, mbind, js_bind. now rewrite update_check_eq, Hcar.
Qed.

Lemma unresolved_key_rejected_witness :
  let x := obj [("carId", int 99); ("batteryPackId", int 99)] in
  (∃ e, T.create carBatteryPacks_ x seededWorld = (Throw e, seededWorld)
        ∧ classify e = ValidationError)
  ∧ carBatteryPacks.update (num 1) x seededWorld = (Throw InvalidCarId, seededWorld).
Proof.
  intros x.
  assert (H : keys_resolve carBatteryPacks_ x (storage seededWorld) = false)
    by (vm_compute; reflexivity).
  destruct (unresolved_key_rejected carBatteryPacks_ (num 1) x seededWorld H)
    as (Hcreate & _ & Hfirst).
  split; [exact Hcreate|]. apply Hfirst. vm_compute; reflexivity.
Defined.

(** X6.  [validateFK] never writes, and it accepts a key exactly when the
    key is absent, null, or a finite number equal to the identifier of a
    record of the referenced table.  A string, a boolean, [NaN] or an
    infinity is never accepted, not even a string that spells an
    identifier. *)
Theorem validateFK_accepts (fk : field) (tbl : TABLES) (w : world) :
  ∃ ok, validateFK fk tbl w = (Return ok, w)
        ∧ (ok = true ↔
           fk = None ∨ fk = null
           ∨ ∃ q r, fk = Some (VNum (Fin q)) ∧ In r (table tbl (storage w))
                    ∧ (inject_Z (row_id r) == q)%Q).
Proof.
  rewrite validateFK_eq. eexists. split; [reflexivity|].
  unfold resolves, ids. rewrite existsb_map. split.
  - destruct fk as [[| | |]|]; auto; intros (r & Hr & Hid)%existsb_exists;
      apply id_is_inv in Hid as (q & [= ->] & Hq);
      right; right; exists q, r; repeat split; try assumption;
      now apply Qeq_bool_iff.
  - intros [->|[->|(q & r & -> & Hr & Hq)]]; try reflexivity.
    apply existsb_exists. exists r. split; [exact Hr|].
    unfold id_is, num; simpl. now apply Qeq_bool_iff.
Qed.

(** * Further properties: update and get *)

Section UpdateGet.

Lemma findIndex_cons {A} (p : A → bool) (a : A) (l : list A) :
  findIndex p (a :: l)
  = if p a then Some (O, a) else prod_map S id <$> findIndex p l.
Proof.
  unfold findIndex. simpl. destruct (p a); simpl.
  - destruct (decide (true = true)); [reflexivity|contradiction].
  - destruct (decide (false = true)); [discriminate|reflexivity].
Qed.

Lemma findIndex_unique tbl (items : list (row tbl)) (r : row tbl) :
  NoDup (map row_id items) → In r items →
  ∃ n, findIndex (λ item, id_is (row_id item) (num (row_id r))) items = Some (n, r).
Proof.
  induction items as [|a items IH]; cbn [map In]; [contradiction|].
  intros [Hnotin Hnodup]%NoDup_cons Hin. rewrite findIndex_cons, id_is_num.
  destruct Hin as [->|Hr].
  - rewrite Z.eqb_refl. eauto.
  - destruct (Z.eqb_spec (row_id a) (row_id r)) as [Heq|_].
    + exfalso. apply Hnotin. rewrite Heq. apply list_elem_of_In, in_map. exact Hr.
    + destruct (IH Hnodup Hr) as (n & ->). simpl. eauto.
Qed.

(** After [items[index] = new], where [index] is the first record with the
    identifier and [new] keeps it, a search for the identifier finds [new]. *)
Lemma find_insert_first tbl id (items : list (row tbl)) n (old new : row tbl) :
  findIndex (λ item, id_is (row_id item) id) items = Some (n, old) →
  row_id new = row_id old →
  List.find (λ item, id_is (row_id item) id) (map stringify_parse (<[n:=new]> items))
  = Some (stringify_parse new).
Proof.
  revert n. induction items as [|a items IH]; intros n.
  - discriminate.
  - rewrite findIndex_cons. destruct (id_is (row_id a) id) eqn:Ha.
    + intros [= <- <-] Hid. simpl. now rewrite row_id_stringify_parse, Hid, Ha.
    + destruct (findIndex _ items) as [[m y]|] eqn:Hfind; simpl; [|discriminate].
      intros [= <- <-] Hid. simpl. rewrite row_id_stringify_parse, Ha.
      now apply IH.
Qed.

Lemma update_returns tbl id x w n old :
  findIndex (λ item, id_is (row_id item) id) (table tbl (storage w)) = Some (n, old) →
  keys_resolve tbl x (storage w) = true →
  ∃ new, T.update tbl id x w
         = (Return new, saved tbl (<[n:=new]> (table tbl (storage w))) w)
         ∧ row_id new = row_id old
         ∧ ∀ k, In k (columns tbl) → attribute new k = supplied x k (attribute old k).
Proof.
  intros Hfind Hres. destruct tbl; simpl in *.
  - unfold cellModels.update, mbind, js_bind, cellModels.list_.
    rewrite getTable_eq, Hfind.
    eexists. split; [reflexivity|]. split; [reflexivity|].
    intros k Hk. repeat (destruct Hk as [<-|Hk]; [reflexivity|]). destruct Hk.
  - unfold batteryPacks.update, mbind, js_bind, batteryPacks.list_.
    rewrite update_check_eq, Hres; cbn [negb]. rewrite getTable_eq, Hfind.
    eexists. split; [reflexivity|]. split; [reflexivity|].
    intros k Hk. repeat (destruct Hk as [<-|Hk]; [reflexivity|]). destruct Hk.
  - unfold cars.update, mbind, js_bind, cars.list_.
    rewrite getTable_eq, Hfind.
    eexists. split; [reflexivity|]. split; [reflexivity|].
    intros k Hk. repeat (destruct Hk as [<-|Hk]; [reflexivity|]). destruct Hk.
  - apply andb_true_iff in Hres as [Hcar Hpack].
    unfold carBatteryPacks.update, mbind, js_bind, carBatteryPacks.list_.
    rewrite update_check_eq, Hcar; cbn [negb].
    rewrite update_check_eq, Hpack; cbn [negb]. rewrite getTable_eq, Hfind.
    eexists. split; [reflexivity|]. split; [reflexivity|].
    intros k Hk. repeat (destruct Hk as [<-|Hk]; [reflexivity|]). destruct Hk.
Qed.

End UpdateGet.

(** X7.  In every reachable state, [update i x] of a record that exists,
    with supplied foreign keys that resolve, returns the record in which
    every property supplied in [x] holds the supplied value, falsy ones such
    as [0], [""] and [null] included, and every other property is as
    before; the identifier is kept; and [get i] then yields this record as
    JSON carries it. *)
Theorem update_then_get (tbl : TABLES) (x : object) (w : world) (old : row tbl) :
  reachable w →
  In old (table tbl (storage w)) →
  keys_resolve tbl x (storage w) = true →
  ∃ new w', T.update tbl (num (row_id old)) x w = (Return new, w')
            ∧ row_id new = row_id old
            ∧ (∀ k, In k (columns tbl) → attribute new k = supplied x k (attribute old k))
            ∧ T.get tbl (num (row_id old)) w' = (Return (Some (stringify_parse new)), w')
            ∧ ids tbl (storage w') = ids tbl (storage w).
Proof.
  intros Hreach Hold Hres.
  destruct (reachable_consistent w Hreach) as [_ [_ Hids]].
  destruct (findIndex_unique tbl _ old (proj1 (Hids tbl)) Hold) as (n & Hfind).
  destruct (update_returns tbl _ x w n old Hfind Hres) as (new & Hupdate & Hid & Hattr).
  exists new. eexists. split; [exact Hupdate|]. split; [exact Hid|].
  split; [exact Hattr|]. split.
  - rewrite get_eq, storage_saved, table_storeItem_eq.
    now rewrite (find_insert_first tbl _ _ n old new Hfind Hid).
  - rewrite storage_saved, ids_storeItem_eq.
    apply findIndex_Some in Hfind as (Hn & _).
    exact (map_insert_same row_id _ _ _ _ Hn Hid).
Qed.

Lemma update_then_get_witness :
  let x := obj [("nominalVoltage", int 0); ("chemistry", VStr "")] in
  let old := CellModel.Build 2 (str "LG") (str "E63") (str "Li-iON")
               (Some (dec 36 10)) (num 64800) in
  ∃ new w', T.update cellModels_ (num 2) x seededWorld = (Return new, w')
            ∧ attribute new "nominalVoltage" = num 0
            ∧ attribute new "chemistry" = str ""
            ∧ attribute new "model" = str "E63".
Proof.
  intros x old.
  assert (Hold : In old (table cellModels_ (storage seededWorld))).
  { assert (H : nth_error (table cellModels_ (storage seededWorld)) 1 = Some old)
      by (vm_compute; reflexivity).
    exact (nth_error_In _ _ H). }
  destruct (update_then_get cellModels_ x seededWorld old reachable_seeded Hold eq_refl)
    as (new & w' & Hupdate & _ & Hattr & _).
  exists new, w'. split; [exact Hupdate|].
  split; [|split].
  - rewrite (Hattr "nominalVoltage"); [vm_compute; reflexivity|].
    do 3 right; left; reflexivity.
  - rewrite (Hattr "chemistry"); [vm_compute; reflexivity|].
    do 2 right; left; reflexivity.
  - rewrite (Hattr "model"); [vm_compute; reflexivity|].
    right; left; reflexivity.
Defined.

(** X8.  [get] never writes.  What it returns is a record of the table
    whose identifier is [===] to the argument, and it returns nothing exactly
    when no record has such an identifier; so for an argument that is not a
    finite number, such as null, a string or a missing argument, it returns
    nothing.  In a reachable state every record is what [get] returns for
    its identifier. *)
Theorem get_finds (tbl : TABLES) (id : field) (w : world) :
  ∃ o, T.get tbl id w = (Return o, w)
       ∧ (∀ r, o = Some r → In r (table tbl (storage w)) ∧ id_is (row_id r) id = true)
       ∧ (o = None ↔ ∀ r, In r (table tbl (storage w)) → id_is (row_id r) id = false)
       ∧ ((∀ q, id ≠ Some (VNum (Fin q))) → o = None)
       ∧ (reachable w → ∀ r, In r (table tbl (storage w)) →
            T.get tbl (num (row_id r)) w = (Return (Some r), w)).
Proof.
  rewrite get_eq. eexists. split; [reflexivity|].
  assert (Hnone : List.find (λ item, id_is (row_id item) id) (table tbl (storage w)) = None
                  ↔ ∀ r, In r (table tbl (storage w)) → id_is (row_id r) id = false).
  { split.
    - intros H r Hr. exact (find_none _ _ H r Hr).
    - intros H. destruct (List.find _ _) as [r|] eqn:E; [|reflexivity].
      apply find_some in E as [Hr Hid]. rewrite (H r Hr) in Hid. discriminate. }
  split; [|split; [exact Hnone|split]].
  - intros r Hr. now apply find_some in Hr.
  - intros Hid. apply Hnone. intros r Hr.
    destruct (id_is (row_id r) id) eqn:E; [|reflexivity].
    apply id_is_inv in E as (q & -> & _). now destruct (Hid q).
  - intros Hreach r Hr. rewrite get_eq.
    destruct (reachable_consistent w Hreach) as [_ [_ Hids]].
    now rewrite (find_unique tbl _ r (proj1 (Hids tbl)) Hr).
Qed.

Lemma get_finds_witness :
  T.get cars_ null seededWorld = (Return None, seededWorld)
  ∧ T.get cars_ (str "7") seededWorld = (Return None, seededWorld)
  ∧ ∃ r, T.get cars_ (num 7) seededWorld = (Return (Some r), seededWorld)
         ∧ Car.model r = str "Kona".
Proof.
  split; [|split].
  - destruct (get_finds cars_ null seededWorld) as (o & Hget & _ & _ & Hnone & _).
    rewrite Hget, Hnone; [reflexivity|]. discriminate.
  - destruct (get_finds cars_ (str "7") seededWorld) as (o & Hget & _ & _ & Hnone & _).
    rewrite Hget, Hnone; [reflexivity|]. discriminate.
  - exists (Car.Build 7 (str "Hyundai") (str "Kona") (str "64kWh") (num 2017) (num 2023)).
    split; [|reflexivity].
    destruct (get_finds cars_ None seededWorld) as (_ & _ & _ & _ & _ & Hall).
    apply (Hall reachable_seeded
             (Car.Build 7 (str "Hyundai") (str "Kona") (str "64kWh") (num 2017) (num 2023))).
    assert (H : nth_error (table cars_ (storage seededWorld)) 6
                = Some (Car.Build 7 (str "Hyundai") (str "Kona") (str "64kWh")
                          (num 2017) (num 2023)))
      by (vm_compute; reflexivity).
    exact (nth_error_In _ _ H).
Defined.

(** * Further properties: junction lookups, seeding and export *)

Section Lookups.

Lemma filter_nil_existsb {A} (p : A → bool) (l : list A) :
  List.filter p l = [] ↔ existsb p l = false.
Proof.
  induction l as [|a l IH]; simpl; [tauto|].
  destruct (p a); simpl; [split; discriminate | exact IH].
Qed.

Lemma initialized_storeItem tbl v ls :
  initialized ls → initialized (storeItem tbl (Some v) ls).
Proof. unfold initialized. destruct tbl; simpl; auto; discriminate. Qed.

Lemma initialized_create tbl x : preserves initialized (T.create tbl x).
Proof.
  intros w H. destruct (create_effect tbl x w) as [[e ->]|(r & -> & _)]; [exact H|].
  now apply initialized_storeItem.
Qed.

Lemma initialized_update tbl id x : preserves initialized (T.update tbl id x).
Proof.
  intros w H.
  destruct (update_effect tbl id x w) as [[e ->]|(n & old & new & _ & -> & _)]; [exact H|].
  now apply initialized_storeItem.
Qed.

Lemma initialized_remove tbl id : preserves initialized (T.remove tbl id).
Proof.
  intros w H. destruct (remove_effect tbl id w) as [[e ->]|(-> & _)]; [exact H|].
  now apply initialized_storeItem.
Qed.

Lemma initialized_perform op : preserves initialized (perform op).
Proof.
  destruct op; simpl; (apply preserves_bind; [|intros; apply preserves_ret]).
  - apply initialized_create.
  - apply initialized_update.
  - apply initialized_remove.
Qed.

Lemma initialized_run ops w : initialized (storage w) → initialized (storage (run ops w)).
Proof.
  revert w. induction ops as [|op ops IH]; intros w H; [exact H|].
  simpl. apply IH. now apply initialized_perform.
Qed.

(** Seeding at least one cell model leaves a [cellModels] entry. *)
Lemma initialized_forEach_create x xs w :
  initialized (storage (snd (forEach cellModels.create (x :: xs) w))).
Proof.
  simpl forEach. unfold mbind at 1, js_bind.
  destruct (create_effect cellModels_ x w) as [[e He]|(r & He & _)];
    simpl in He; rewrite He.
  - exfalso. revert He. unfold cellModels.create; cbn. discriminate.
  - apply (preserves_forEach initialized); [apply (initialized_create cellModels_)|].
    rewrite storage_saved. unfold initialized. simpl. discriminate.
Qed.

Lemma bind_establishes P {A B} (m : js A) (f : A → js B) w :
  P (storage (snd (m w))) → (∀ a, preserves P (f a)) →
  P (storage (snd ((m ≫= f) w))).
Proof.
  unfold mbind, js_bind. destruct (m w) as [[a|e] w']; simpl; intros Hm Hf; [|exact Hm].
  now apply Hf.
Qed.

Lemma initDB_initialized w : initialized (storage w) → DB.initDB w = (Return (), w).
Proof.
  unfold initialized, DB.initDB, mbind, js_bind, getItem.
  destruct (lookupItem cellModels_ (storage w)); [reflexivity|contradiction].
Qed.

End Lookups.

(** X9.  [getByCarId] and [getByBatteryPackId] never write and return the
    junction rows whose key is [===] to the argument.  [cars.remove id]
    throws its conflict failure exactly when [getByCarId id] returns a row,
    and [batteryPacks.remove id] exactly when [getByBatteryPackId id] does. *)
Theorem junction_lookups (id : field) (w : world) :
  ∃ byCar byPack,
    carBatteryPacks.getByCarId id w = (Return byCar, w)
    ∧ carBatteryPacks.getByBatteryPackId id w = (Return byPack, w)
    ∧ (∀ rel, In rel byCar ↔
         In rel (table carBatteryPacks_ (storage w))
         ∧ strict_eq (CarBatteryPack.carId rel) id = true)
    ∧ (∀ rel, In rel byPack ↔
         In rel (table carBatteryPacks_ (storage w))
         ∧ strict_eq (CarBatteryPack.batteryPackId rel) id = true)
    ∧ (byCar ≠ [] ↔ cars.remove id w = (Throw CarReferenced, w))
    ∧ (byPack ≠ [] ↔ batteryPacks.remove id w = (Throw BatteryPackReferenced, w)).
Proof.
  do 2 eexists. split; [reflexivity|]. split; [reflexivity|].
  split; [intros rel; apply filter_In|]. split; [intros rel; apply filter_In|].
  split.
  - rewrite filter_nil_existsb.
    unfold cars.remove, mbind, js_bind, carBatteryPacks.list_, cars.list_.
    rewrite getTable_eq. destruct (existsb _ _) eqn:E.
    + split; [reflexivity | discriminate].
    + split; [intros H; now destruct H|].
      rewrite getTable_eq. destruct (Nat.eqb _ _); discriminate.
  - rewrite filter_nil_existsb.
    unfold batteryPacks.remove, mbind, js_bind, carBatteryPacks.list_, batteryPacks.list_.
    rewrite getTable_eq. destruct (existsb _ _) eqn:E.
    + split; [reflexivity | discriminate].
    + split; [intros H; now destruct H|].
      rewrite getTable_eq. destruct (Nat.eqb _ _); discriminate.
Qed.

(** X10.  [initDB] seeds once.  On a storage that has a [cellModels] entry
    it does nothing, and from any storage it leaves one that has the entry;
    no create, update or remove takes the entry away, so after any sequence
    of calls, also one that removes every cell model, a further [initDB]
    returns without a write. *)
Theorem initDB_seeds_once (w : world) (ops : list operation) :
  (initialized (storage w) → DB.initDB w = (Return (), w))
  ∧ initialized (storage (snd (DB.initDB w)))
  ∧ DB.initDB (run ops (snd (DB.initDB w))) = (Return (), run ops (snd (DB.initDB w))).
Proof.
  assert (Hinit : initialized (storage (snd (DB.initDB w)))).
  { destruct (lookupItem cellModels_ (storage w)) as [items|] eqn:E.
    - assert (Hw : initialized (storage w))
        by (unfold initialized; rewrite E; discriminate).
      rewrite (initDB_initialized w Hw). exact Hw.
    - unfold DB.initDB, mbind at 1, js_bind, getItem. rewrite E.
      unfold DB.loadInitialData.
      apply (bind_establishes initialized (forEach cellModels.create DB.cellModelsData)).
      + unfold DB.cellModelsData. apply initialized_forEach_create.
      + intros _.
        apply (preserves_bind initialized (forEach cars.create DB.carsData));
          [apply preserves_forEach, (initialized_create cars_)|intros _].
        apply (preserves_bind initialized (forEach batteryPacks.create DB.batteryPacksData));
          [apply preserves_forEach, (initialized_create batteryPacks_)|intros _].
        apply preserves_forEach, (initialized_create carBatteryPacks_). }
  split; [apply initDB_initialized|]. split; [exact Hinit|].
  apply initDB_initialized, initialized_run, Hinit.
Qed.

Lemma initDB_seeds_once_witness :
  let emptied := run (map (λ i, Remove cellModels_ (num i)) [2; 4; 5; 7; 8; 9; 10; 19])
                     seededWorld in
  DB.initDB seededWorld = (Return (), seededWorld)
  ∧ DB.initDB emptied = (Return (), emptied)
  ∧ length (table cellModels_ (storage emptied)) = 14%nat.
Proof.
  intros emptied. split; [|split].
  - apply (proj1 (initDB_seeds_once seededWorld [])). unfold initialized.
    assert (H : is_Some (lookupItem cellModels_ (storage seededWorld)))
      by (vm_compute; eexists; reflexivity).
    destruct H as [v ->]. discriminate.
  - exact (proj2 (proj2 (initDB_seeds_once emptyWorld
             (map (λ i, Remove cellModels_ (num i)) [2; 4; 5; 7; 8; 9; 10; 19])))).
  - vm_compute; reflexivity.
Defined.

(** * Further properties: what the storage holds *)

Section Stored.

Lemma or_else_present (a : field) (d : value) : or_else a (Some d) ≠ None.
Proof. destruct a as [v|]; simpl; [destruct (truthy v)|]; discriminate. Qed.

Lemma supplied_present (x : object) (k : string) (old : field) :
  old ≠ None → supplied x k old ≠ None.
Proof. unfold supplied. destruct (x !! k); [discriminate|auto]. Qed.

Lemma json_present (a : field) : a ≠ None → json a ≠ None.
Proof. destruct a; [discriminate|auto]. Qed.

Lemma create_columns tbl x w r w' :
  T.create tbl x w = (Return r, w') → tbl ≠ carBatteryPacks_ →
  ∀ k, In k (columns tbl) → attribute r k ≠ None.
Proof.
  destruct tbl; simpl; intros Hcreate Hne k Hk; try contradiction.
  - revert Hcreate. unfold cellModels.create; cbn. intros [= <- _].
    repeat (destruct Hk as [<-|Hk]; [apply or_else_present|]). destruct Hk.
  - revert Hcreate. unfold batteryPacks.create, mbind, js_bind. rewrite validateFK_eq.
    destruct (resolves _ _); cbn; [|discriminate]. intros [= <- _].
    repeat (destruct Hk as [<-|Hk]; [apply or_else_present|]). destruct Hk.
  - revert Hcreate. unfold cars.create; cbn. intros [= <- _].
    repeat (destruct Hk as [<-|Hk]; [apply or_else_present|]). destruct Hk.
Qed.

Lemma update_columns tbl id x w new w' :
  T.update tbl id x w = (Return new, w') →
  ∃ n old, table tbl (storage w) !! n = Some old
           ∧ w' = saved tbl (<[n:=new]> (table tbl (storage w))) w
           ∧ ∀ k, In k (columns tbl) → attribute new k = supplied x k (attribute old k).
Proof.
  intros Hupdate.
  destruct (keys_resolve tbl x (storage w)) eqn:Hres.
  - destruct (findIndex (λ item, id_is (row_id item) id) (table tbl (storage w)))
      as [[n old]|] eqn:Hfind.
    + destruct (update_returns tbl id x w n old Hfind Hres) as (new' & He & _ & Hattr).
      rewrite He in Hupdate. injection Hupdate as <- <-.
      apply findIndex_Some in Hfind as (Hn & _). eauto.
    + exfalso. rewrite findIndex_None in Hfind.
      destruct tbl; simpl in *.
      * revert Hupdate. unfold cellModels.update, mbind, js_bind, cellModels.list_.
        rewrite getTable_eq. apply findIndex_None in Hfind. rewrite Hfind. discriminate.
      * revert Hupdate. unfold batteryPacks.update, mbind, js_bind, batteryPacks.list_.
        rewrite update_check_eq, Hres; cbn [negb].
        rewrite getTable_eq. apply findIndex_None in Hfind. rewrite Hfind. discriminate.
      * revert Hupdate. unfold cars.update, mbind, js_bind, cars.list_.
        rewrite getTable_eq. apply findIndex_None in Hfind. rewrite Hfind. discriminate.
      * apply andb_true_iff in Hres as [Hcar Hpack].
        revert Hupdate. unfold carBatteryPacks.update, mbind, js_bind, carBatteryPacks.list_.
        rewrite update_check_eq, Hcar; cbn [negb].
        rewrite update_check_eq, Hpack; cbn [negb].
        rewrite getTable_eq. apply findIndex_None in Hfind. rewrite Hfind. discriminate.
  - exfalso. destruct tbl; simpl in *; try discriminate.
    + revert Hupdate. unfold batteryPacks.update, mbind, js_bind.
      rewrite update_check_eq, Hres. discriminate.
    + revert Hupdate. unfold carBatteryPacks.update, mbind, js_bind.
      rewrite update_check_eq.
      destruct (resolves (x !! "carId") _); cbn [negb]; [|discriminate].
      simpl in Hres. rewrite update_check_eq, Hres. discriminate.
Qed.

Lemma all_present_saved tbl (data : list (row tbl)) ls :
  all_present ls →
  (tbl ≠ carBatteryPacks_ →
   ∀ r, In r data → ∀ k, In k (columns tbl) → attribute r k ≠ None) →
  all_present (storeItem tbl (Some (map stringify_parse data)) ls).
Proof.
  intros Hall Hdata tbl' r Hr Hne k Hk.
  destruct (decide (tbl = tbl')) as [<-|Hne'].
  - rewrite table_storeItem_eq in Hr. apply in_map_iff in Hr as (r0 & <- & Hr0).
    rewrite attribute_stringify_parse. apply json_present. now apply (Hdata Hne r0).
  - rewrite table_storeItem_ne in Hr by assumption. now apply (Hall tbl' r).
Qed.

Lemma all_present_create tbl x : preserves all_present (T.create tbl x).
Proof.
  intros w Hall.
  destruct (T.create tbl x w) as [[r|e] w'] eqn:Hcreate.
  - destruct (create_effect tbl x w) as [[e He]|(r' & He & _)];
      rewrite He in Hcreate; [discriminate|].
    injection Hcreate as <- <-. simpl snd. rewrite storage_saved.
    apply all_present_saved; [exact Hall|].
    intros Hne r0 [Hr0|[<-|[]]]%in_app_or; [now apply Hall|].
    now apply (create_columns tbl x w r' _ He).
  - destruct (create_effect tbl x w) as [[e' He]|(r' & He & _)];
      rewrite He in Hcreate; [|discriminate].
    injection Hcreate as <- <-. exact Hall.
Qed.

Lemma all_present_update tbl id x : preserves all_present (T.update tbl id x).
Proof.
  intros w Hall.
  destruct (T.update tbl id x w) as [[new|e] w'] eqn:Hupdate.
  - destruct (update_columns tbl id x w new w' Hupdate) as (n & old & Hn & -> & Hattr).
    simpl snd. rewrite storage_saved.
    apply all_present_saved; [exact Hall|].
    intros Hne r0 [->|Hr0]%In_insert; [|now apply Hall].
    intros k Hk. rewrite (Hattr k Hk). apply supplied_present.
    apply (Hall tbl old); [eapply lookup_In; eassumption | assumption | assumption].
  - destruct (update_effect tbl id x w) as [[e' He]|(n & old & new & _ & He & _)];
      rewrite He in Hupdate; [|discriminate].
    injection Hupdate as <- <-. exact Hall.
Qed.

Lemma all_present_remove tbl id : preserves all_present (T.remove tbl id).
Proof.
  intros w Hall.
  destruct (remove_effect tbl id w) as [[e ->]|(-> & _)]; [exact Hall|].
  simpl snd. rewrite storage_saved.
  apply all_present_saved; [exact Hall|].
  intros Hne r0 [Hr0 _]%filter_In. now apply Hall.
Qed.

Lemma all_present_reachable w : reachable w → all_present (storage w).
Proof.
  induction 1 as [| |op w _ IH].
  - intros tbl r Hr. destruct tbl; destruct Hr.
  - assert (Hload : preserves all_present DB.loadInitialData).
    { unfold DB.loadInitialData.
      apply (preserves_bind all_present (forEach cellModels.create DB.cellModelsData));
        [apply preserves_forEach, (all_present_create cellModels_)|intros _].
      apply (preserves_bind all_present (forEach cars.create DB.carsData));
        [apply preserves_forEach, (all_present_create cars_)|intros _].
      apply (preserves_bind all_present (forEach batteryPacks.create DB.batteryPacksData));
        [apply preserves_forEach, (all_present_create batteryPacks_)|intros _].
      apply preserves_forEach, (all_present_create carBatteryPacks_). }
    apply (Hload emptyWorld). intros tbl r Hr. destruct tbl; destruct Hr.
  - destruct op; simpl; rewrite snd_bind_ret.
    + now apply all_present_create.
    + now apply all_present_update.
    + now apply all_present_remove.
Qed.

Lemma json_fixed_finite (a : field) :
  json a = a → a ≠ Some (VNum NaN) ∧ ∀ b, a ≠ Some (VNum (Infinity b)).
Proof.
  destruct a as [[| |[| |]|]|]; simpl; intros H; try discriminate;
    split; try intros b'; discriminate.
Qed.

End Stored.

(** X11.  In every reachable state every stored record has a positive
    identifier; none of its properties holds [NaN] or an infinity; and in
    the cell model, battery pack and car tables none of the properties that
    [create] writes is missing. *)
Theorem stored_records (w : world) (tbl : TABLES) (r : row tbl) :
  reachable w →
  In r (table tbl (storage w)) →
  0 < row_id r
  ∧ (∀ k, attribute r k ≠ Some (VNum NaN) ∧ ∀ b, attribute r k ≠ Some (VNum (Infinity b)))
  ∧ (tbl ≠ carBatteryPacks_ → ∀ k, In k (columns tbl) → attribute r k ≠ None).
Proof.
  intros Hreach Hr.
  destruct (reachable_consistent w Hreach) as [_ [Hclean Hids]].
  split; [|split].
  - destruct (Hids tbl) as [_ Hpos]. rewrite Forall_forall in Hpos.
    apply Hpos, list_elem_of_In, in_map, Hr.
  - intros k. apply json_fixed_finite.
    rewrite <- attribute_stringify_parse. now rewrite (Hclean tbl r Hr).
  - intros Hne k Hk. now apply (all_present_reachable w Hreach tbl r).
Qed.

Lemma stored_records_witness :
  let x := obj [("nominalVoltage", VNum NaN)] in
  let w := snd (perform (Update cellModels_ (num 1) x) seededWorld) in
  let r := CellModel.Build 1 (str "Shenzhen Starax Energy Technology") (str "S28(B28)")
             (str "Li-ION") null (num 55000) in
  In r (table cellModels_ (storage w))
  ∧ 0 < CellModel.id r
  ∧ attribute (tbl := cellModels_) r "nominalVoltage" ≠ Some (VNum NaN).
Proof.
  intros x w r.
  assert (Hr : In r (table cellModels_ (storage w))).
  { assert (H : nth_error (table cellModels_ (storage w)) 0 = Some r)
      by (vm_compute; reflexivity).
    exact (nth_error_In _ _ H). }
  pose proof (reachable_step (Update cellModels_ (num 1) x) seededWorld reachable_seeded)
    as Hw.
  destruct (stored_records w cellModels_ r Hw Hr) as (Hpos & Hfinite & _).
  split; [exact Hr|]. split; [exact Hpos|]. exact (proj1 (Hfinite "nominalVoltage")).
Defined.

Section Snapshots.



End Snapshots.



(** * Further properties: the completeness checks (app.js) *)

Section Completeness.

(** Two doubles that [==] tells apart are different. *)
Lemma float_neq (a b : float) : PrimFloat.eqb a b = false → PrimFloat.eqb b b = true → a ≠ b.
Proof. intros Hab Hbb ->. rewrite Hbb in Hab. discriminate. Qed.

Lemma validateCellModel_fields (cell : CellModel.t) :
  (isComplete (validateCellModel cell) = true ↔
     not_ (CellModel.chemistry cell) = false
     ∧ not_ (CellModel.nominalVoltage cell) = false
     ∧ not_ (CellModel.nominalCapacityMah cell) = false)
  ∧ (isComplete (validateCellModel cell) = true ↔ issues (validateCellModel cell) = []).
Proof.
  unfold validateCellModel.
  destruct (not_ (CellModel.chemistry cell)), (not_ (CellModel.nominalVoltage cell)),
    (not_ (CellModel.nominalCapacityMah cell));
    cbn [push_if app length Nat.eqb isComplete issues];
    repeat split; try reflexivity; try discriminate; intros (? & ? & ?); discriminate.
Qed.

End Completeness.

(** Closes a goal [a = b → _] for two doubles that [==] tells apart. *)
Ltac same_double :=
  let H := fresh in
  intros H; exfalso; revert H; apply float_neq; vm_compute; reflexivity.

(** X13.  [validateCellModel] reports a record complete exactly when its
    chemistry, nominal voltage and nominal capacity are all truthy, which is
    when it lists no issue and when the completeness is 100.  Each of the
    three messages is listed exactly when its field is falsy or missing, and
    the completeness is 100, 67, 33 or 0 for none, one, two or three
    issues. *)
Theorem validateCellModel_complete (cell : CellModel.t) :
  let v := validateCellModel cell in
  (isComplete v = true ↔
     not_ (CellModel.chemistry cell) = false
     ∧ not_ (CellModel.nominalVoltage cell) = false
     ∧ not_ (CellModel.nominalCapacityMah cell) = false)
  ∧ (isComplete v = true ↔ issues v = [])
  ∧ (isComplete v = true ↔ completeness v = ofZ 100)
  ∧ (In "Missing chemistry" (issues v) ↔ not_ (CellModel.chemistry cell) = true)
  ∧ (In "Missing voltage" (issues v) ↔ not_ (CellModel.nominalVoltage cell) = true)
  ∧ (In "Missing capacity" (issues v) ↔ not_ (CellModel.nominalCapacityMah cell) = true)
  ∧ completeness v
    = match length (issues v) with
      | 0 => ofZ 100
      | 1 => ofZ 67
      | 2 => ofZ 33
      | _ => ofZ 0
      end%nat.
Proof.
  unfold validateCellModel.
  destruct (not_ (CellModel.chemistry cell)), (not_ (CellModel.nominalVoltage cell)),
    (not_ (CellModel.nominalCapacityMah cell));
    cbn [push_if app length Nat.eqb isComplete issues completeness];
    (split; [split; [discriminate || (intros _; repeat split)
                    | intros (? & ? & ?); discriminate || reflexivity]|]);
    (split; [split; discriminate || reflexivity|]);
    (split; [split; [discriminate || (intros _; vm_compute; reflexivity)
                    | (intros _; reflexivity) || same_double]|]);
    (repeat split; try (vm_compute; reflexivity); simpl; intuition discriminate).
Qed.

(** X14.  [validateBatteryPack] reports a pack complete exactly when its
    cell model, series count, parallel count and cell count are all truthy,
    which is when it lists no issue and when the completeness is 100.  Each
    message is listed exactly when its field is falsy or missing, and the
    completeness is 100, 75, 50, 25 or 0 for none to four issues; the name and
    the capacity of the pack play no part. *)
Theorem validateBatteryPack_complete (pack : BatteryPack.t) :
  let v := validateBatteryPack pack in
  (isComplete v = true ↔
     not_ (BatteryPack.cellModelId pack) = false
     ∧ not_ (BatteryPack.seriesCount pack) = false
     ∧ not_ (BatteryPack.parallelCount pack) = false
     ∧ not_ (BatteryPack.cellCount pack) = false)
  ∧ (isComplete v = true ↔ issues v = [])
  ∧ (isComplete v = true ↔ completeness v = ofZ 100)
  ∧ (In "Missing cell model" (issues v) ↔ not_ (BatteryPack.cellModelId pack) = true)
  ∧ (In "Missing series count" (issues v) ↔ not_ (BatteryPack.seriesCount pack) = true)
  ∧ (In "Missing parallel count" (issues v)
     ↔ not_ (BatteryPack.parallelCount pack) = true)
  ∧ (In "Missing cell count" (issues v) ↔ not_ (BatteryPack.cellCount pack) = true)
  ∧ completeness v
    = match length (issues v) with
      | 0 => ofZ 100
      | 1 => ofZ 75
      | 2 => ofZ 50
      | 3 => ofZ 25
      | _ => ofZ 0
      end%nat.
Proof.
  unfold validateBatteryPack.
  destruct (not_ (BatteryPack.cellModelId pack)), (not_ (BatteryPack.seriesCount pack)),
    (not_ (BatteryPack.parallelCount pack)), (not_ (BatteryPack.cellCount pack));
    cbn [push_if app length Nat.eqb isComplete issues completeness];
    (split; [split; [discriminate || (intros _; repeat split)
                    | intros (? & ? & ? & ?); discriminate || reflexivity]|]);
    (split; [split; discriminate || reflexivity|]);
    (split; [split; [discriminate || (intros _; vm_compute; reflexivity)
                    | (intros _; reflexivity) || same_double]|]);
    (repeat split; try (vm_compute; reflexivity); simpl; intuition discriminate).
Qed.

(** X15.  [validateCar] looks at the two years only.  The completeness is
    100 exactly when both are truthy, which is when the car is reported
    complete; 50 exactly when one of them is; and 0 exactly when neither is.
    The trim, the brand and the model play no part. *)
Theorem validateCar_complete (car : Car.t) :
  let v := validateCar car in
  let start := negb (not_ (Car.yearStart car)) in
  let end_ := negb (not_ (Car.yearEnd car)) in
  (isComplete v = true ↔ start = true ∧ end_ = true)
  ∧ (isComplete v = true ↔ issues v = [])
  ∧ (completeness v = ofZ 100 ↔ start = true ∧ end_ = true)
  ∧ (completeness v = ofZ 50 ↔ start ≠ end_)
  ∧ (completeness v = ofZ 0 ↔ start = false ∧ end_ = false)
  ∧ (In "Missing start year" (issues v) ↔ start = false)
  ∧ (In "Missing end year" (issues v) ↔ end_ = false)
  ∧ ∀ brand model trim,
      validateCar (Car.Build (Car.id car) brand model trim
                     (Car.yearStart car) (Car.yearEnd car)) = v.
Proof.
  unfold validateCar. cbn [Car.yearStart Car.yearEnd].
  destruct (not_ (Car.yearStart car)), (not_ (Car.yearEnd car));
    cbn [push_if app length Nat.eqb isComplete issues completeness negb andb
         Car.yearStart Car.yearEnd];
    repeat split;
    try reflexivity;
    try (intros; discriminate);
    try (intros [? ?]; discriminate);
    try same_double;
    try (intros H; exfalso; apply H; reflexivity);
    try (simpl; intuition discriminate).
Qed.

Section Stats.

Lemma count_bounds {A} (p : A → bool) (items : list A) :
  0 ≤ Z.of_nat (length (List.filter p items)) ≤ Z.of_nat (length items).
Proof. pose proof (List.filter_length_le p items). lia. Qed.

(** A field built by [create] is truthy, once stored, exactly when a truthy
    value other than an infinity was supplied for it. *)
Lemma not_json_or_else (a default : field) :
  default = null ∨ default = str "" →
  (not_ (json (or_else a default)) = false
   ↔ ∃ v, a = Some v ∧ truthy v = true ∧ ∀ b, v ≠ VNum (Infinity b)).
Proof.
  intros Hd.
  assert (Hdefault : not_ (json default) = true) by (destruct Hd as [->| ->]; reflexivity).
  destruct a as [v|]; simpl.
  - destruct (truthy v) eqn:Hv.
    + destruct v as [| |[| |]|]; simpl in *; try discriminate.
      * split; [|intros _; now rewrite Hv]. intros _. eexists.
        split; [reflexivity|]. split; [assumption|discriminate].
      * split; [|intros _; now rewrite Hv]. intros _. eexists.
        split; [reflexivity|]. split; [assumption|discriminate].
      * split; [discriminate|]. intros (v & [= <-] & _ & H). now destruct (H negative).
      * split; [|intros _; now rewrite Hv]. intros _. eexists.
        split; [reflexivity|]. split; [assumption|discriminate].
    + rewrite Hdefault. split; [discriminate|].
      intros (v' & [= <-] & H & _). congruence.
  - rewrite Hdefault. split; [discriminate|]. intros (v & [=] & _).
Qed.

End Stats.

(** X16.  [calculateStats] never writes.  For a name other than
    [cellModels], [batteryPacks] and [cars], the junction table included, it
    returns null.  For these three it counts the records of the table and
    those its completeness check reports complete; the incomplete ones are
    the rest; and the percentage of an empty table is 0. *)
Theorem calculateStats_counts (tableName : string) (w : world) :
  ∃ o, calculateStats tableName w = (Return o, w)
       ∧ (tableName ≠ "cellModels" → tableName ≠ "batteryPacks" → tableName ≠ "cars" →
          o = None)
       ∧ (tableName = "cellModels" →
          ∃ st, o = Some st
                ∧ total st = Z.of_nat (length (table cellModels_ (storage w)))
                ∧ complete st
                  = Z.of_nat (length (List.filter (λ c, isComplete (validateCellModel c))
                                        (table cellModels_ (storage w)))))
       ∧ (tableName = "batteryPacks" →
          ∃ st, o = Some st
                ∧ total st = Z.of_nat (length (table batteryPacks_ (storage w)))
                ∧ complete st
                  = Z.of_nat (length (List.filter (λ p, isComplete (validateBatteryPack p))
                                        (table batteryPacks_ (storage w)))))
       ∧ (tableName = "cars" →
          ∃ st, o = Some st
                ∧ total st = Z.of_nat (length (table cars_ (storage w)))
                ∧ complete st
                  = Z.of_nat (length (List.filter (λ c, isComplete (validateCar c))
                                        (table cars_ (storage w)))))
       ∧ (∀ st, o = Some st →
            0 ≤ complete st ≤ total st
            ∧ incomplete st = total st - complete st
            ∧ (total st = 0 → percentage st = ofZ 0)).
Proof.
  unfold calculateStats.
  destruct (String.eqb_spec tableName "cellModels") as [->|Hcells].
  { eexists. split; [reflexivity|]. split; [intros H; now destruct H|].
    split; [intros _; eexists; repeat split|]. split; [discriminate|]. split; [discriminate|].
    intros st [= <-]. cbn [total complete incomplete percentage].
    split; [apply count_bounds|]. split; [reflexivity|].
    intros H. now rewrite H. }
  destruct (String.eqb_spec tableName "batteryPacks") as [->|Hpacks].
  { eexists. split; [reflexivity|]. split; [intros _ H; now destruct H|].
    split; [discriminate|]. split; [intros _; eexists; repeat split|]. split; [discriminate|].
    intros st [= <-]. cbn [total complete incomplete percentage].
    split; [apply count_bounds|]. split; [reflexivity|].
    intros H. now rewrite H. }
  destruct (String.eqb_spec tableName "cars") as [->|Hcars].
  { eexists. split; [reflexivity|]. split; [intros _ _ H; now destruct H|].
    split; [discriminate|]. split; [discriminate|]. split; [intros _; eexists; repeat split|].
    intros st [= <-]. cbn [total complete incomplete percentage].
    split; [apply count_bounds|]. split; [reflexivity|].
    intros H. now rewrite H. }
  eexists. split; [reflexivity|]. split; [reflexivity|].
  split; [intros H; contradiction|]. split; [intros H; contradiction|].
  split; [intros H; contradiction|]. discriminate.
Qed.

Lemma calculateStats_counts_witness :
  calculateStats "carBatteryPacks" seededWorld = (Return None, seededWorld)
  ∧ calculateStats "cellModels" seededWorld
    = (Return (Some (Stats 22 21 1 (ofZ 95))), seededWorld)
  ∧ calculateStats "cars" emptyWorld = (Return (Some (Stats 0 0 0 (ofZ 0))), emptyWorld).
Proof.
  split; [|split].
  - destruct (calculateStats_counts "carBatteryPacks" seededWorld) as (o & Ho & Hnone & _).
    rewrite Ho, Hnone; [reflexivity|discriminate..].
  - vm_compute; reflexivity.
  - vm_compute; reflexivity.
Defined.

(** X17.  The cell model that [cellModels.create] appends to the stored
    table is reported complete by [validateCellModel] exactly when the input
    supplied, for each of chemistry, nominal voltage and nominal capacity, a
    truthy value other than an infinity; a supplied [0] or empty string
    counts as missing.  In a reachable state this cell model is the one that
    [get] finds under the new identifier. *)
Theorem created_cellModel_complete (x : object) (w : world) :
  ∃ r w' r',
    cellModels.create x w = (Return r, w')
    ∧ table cellModels_ (storage w')
      = (map (stringify_parse (tbl := cellModels_))
             (table cellModels_ (storage w)) ++ [r'])%list
    ∧ (isComplete (validateCellModel r') = true ↔
       ∀ k, In k ["chemistry"; "nominalVoltage"; "nominalCapacityMah"] →
            ∃ v, x !! k = Some v ∧ truthy v = true ∧ ∀ b, v ≠ VNum (Infinity b))
    ∧ (reachable w →
       cellModels.get (num (CellModel.id r)) w' = (Return (Some r'), w')).
Proof.
  destruct (create_stored cellModels_ x w eq_refl) as (r & Hcreate & Hid & Hsp).
  exists r, (saved cellModels_ (table cellModels_ (storage w) ++ [r]) w),
    (stringify_parse (tbl := cellModels_) r).
  split; [exact Hcreate|]. split; [|split].
  - rewrite storage_saved, table_storeItem_eq. apply map_app.
  - rewrite Hsp. simpl expected.
    rewrite (proj1 (validateCellModel_fields _)).
    cbn [merged CellModel.chemistry CellModel.nominalVoltage CellModel.nominalCapacityMah].
    rewrite <- !json_or_else by reflexivity.
    rewrite !not_json_or_else by (auto).
    split.
    + intros (H1 & H2 & H3) k [<-|[<-|[<-|[]]]]; assumption.
    + intros H. repeat split; apply H; simpl; auto.
  - intros _.
    change (T.get cellModels_ (num (row_id r))
              (saved cellModels_ (table cellModels_ (storage w) ++ [r]) w)
            = (Return (Some (stringify_parse r)),
               saved cellModels_ (table cellModels_ (storage w) ++ [r]) w)).
    rewrite get_eq, storage_saved, table_storeItem_eq, find_fresh; [reflexivity|].
    intros i Hi. rewrite Hid. now apply nextId_fresh.
Qed.

Lemma created_cellModel_complete_witness :
  let x := obj [("chemistry", VStr "LFP"); ("nominalVoltage", int 3);
                ("nominalCapacityMah", int 5000)] in
  ∃ r w' r',
    cellModels.create x seededWorld = (Return r, w')
    ∧ cellModels.get (num (CellModel.id r)) w' = (Return (Some r'), w')
    ∧ isComplete (validateCellModel r') = true.
Proof.
  intros x.
  destruct (created_cellModel_complete x seededWorld)
    as (r & w' & r' & Hcreate & _ & Hcomplete & Hget).
  exists r, w', r'.
  split; [exact Hcreate|]. split; [exact (Hget reachable_seeded)|].
  apply (proj2 Hcomplete).
  intros k [<-|[<-|[<-|[]]]].
  - exists (VStr "LFP"). split; [vm_compute; reflexivity|].
    split; [reflexivity|discriminate].
  - exists (int 3). split; [vm_compute; reflexivity|].
    split; [reflexivity|discriminate].
  - exists (int 5000). split; [vm_compute; reflexivity|].
    split; [reflexivity|discriminate].
Defined.
